(** * Hermes stats profiling manager (Hermes/appscale/hermes/stats/stats_app.py)

    A shallow embedding of [ProfilingManager], its three configuration
    handlers, [bridge_to_ioloop] and [_configure_profiling], together with a
    small model of the collaborators they drive: the Tornado IOLoop and
    PeriodicCallback, the profile logs and the stats sources; and of the two
    route tables, [get_local_stats_api_routes] and
    [get_cluster_stats_api_routes].

    Python objects with identity (profile logs, periodic callbacks) live in
    two heaps addressed by index; a reference is the index of the object.
    Handlers are computations in a state-and-exception monad over the
    [World], so that mutations made before an exception is raised stay
    visible afterwards, as they do in Python. *)

From Stdlib Require Import ZArith String Ascii List Lia.
From Stdlib Require Import Floats.PrimFloat Numbers.Cyclic.Int63.Uint63.
From stdpp Require Import base tactics option list numbers strings gmap.

Set Warnings "-register-all".

Local Open Scope Z_scope.
Local Open Scope string_scope.
Local Open Scope list_scope.

(** ** Python values *)

(** The values [json.loads] can return: None, bool, int, float, unicode,
    list and dict.  A dict is an association list looked up from the front. *)
Inductive value : Type :=
| PyNone
| PyBool (b : bool)
| PyInt (z : Z)
| PyFloat (x : float)
| PyStr (s : string)
| PyList (l : list value)
| PyDict (kvs : list (string * value)).

Inductive exn : Type :=
| ValueError
| KeyError (key : string)
| TypeError
| AttributeError
| RuntimeError
| OverflowError
| OtherError (name : string).

(** [if v:] *)
Definition py_truthy (v : value) : bool :=
  match v with
  | PyNone => false
  | PyBool b => b
  | PyInt z => negb (Z.eqb z 0)
  | PyFloat x => negb (PrimFloat.eqb x 0%float)
  | PyStr s => negb (String.eqb s EmptyString)
  | PyList l => negb (Nat.eqb (List.length l) 0)
  | PyDict kvs => negb (Nat.eqb (List.length kvs) 0)
  end.

(** [not new_conf] for the raw znode value: None or a byte string. *)
Definition py_not_str (new_conf : option string) : bool :=
  match new_conf with
  | None => true
  | Some s => String.eqb s EmptyString
  end.

Fixpoint dict_get (key : string) (kvs : list (string * value)) : option value :=
  match kvs with
  | [] => None
  | (k, v) :: rest => if String.eqb k key then Some v else dict_get key rest
  end.

(** [conf[key]] with a string key: only a dict can be indexed this way. *)
Definition py_getitem (conf : value) (key : string) : exn + value :=
  match conf with
  | PyDict kvs =>
      match dict_get key kvs with
      | Some v => inr v
      | None => inl (KeyError key)
      end
  | _ => inl TypeError
  end.

Fixpoint string_repeat (s : string) (n : nat) : string :=
  match n with
  | O => EmptyString
  | S n' => String.append s (string_repeat s n')
  end.

Fixpoint list_repeat {A} (l : list A) (n : nat) : list A :=
  match n with
  | O => []
  | S n' => l ++ list_repeat l n'
  end.

(** [v * 1000]: arithmetic on numbers (a bool is an int), repetition on
    sequences, TypeError on None and dict. *)
Definition py_mul_1000 (v : value) : exn + value :=
  match v with
  | PyNone => inl TypeError
  | PyBool b => inr (PyInt (if b then 1000 else 0))
  | PyInt z => inr (PyInt (z * 1000))
  | PyFloat x => inr (PyFloat (PrimFloat.mul x 1000%float))
  | PyStr s => inr (PyStr (string_repeat s 1000))
  | PyList l => inr (PyList (list_repeat l 1000))
  | PyDict _ => inl TypeError
  end.

(** [v <= 0] under Python 2 ordering: None sorts below every number, and
    every non-numeric object above. *)
Definition py_le_zero (v : value) : bool :=
  match v with
  | PyNone => true
  | PyBool b => negb b
  | PyInt z => Z.leb z 0
  | PyFloat x => PrimFloat.leb x 0%float
  | PyStr _ | PyList _ | PyDict _ => false
  end.

Definition py_is_number (v : value) : bool :=
  match v with
  | PyBool _ | PyInt _ | PyFloat _ => true
  | _ => false
  end.

(** ** Objects *)

Inductive category : Type := Nodes | Processes | Proxies.

#[global] Instance category_eq_dec : EqDecision category.
Proof. solve_decision. Defined.

(** A heap address is an index into a heap. *)
Abbreviation loc := nat (only parsing).

(** [DEFAULT_INCLUDE_LISTS], the argument of [IncludeLists]. *)
Definition DEFAULT_INCLUDE_LISTS : list (string * list string) :=
  [ ("node", ["utc_timestamp"; "cpu"; "memory"; "partitions_dict"; "loadavg"]);
    ("node.cpu", ["percent"; "count"]);
    ("node.memory", ["available"; "total"]);
    ("node.partition", ["free"; "used"]);
    ("node.loadavg", ["last_5min"]);
    ("process", ["monit_name"; "unified_service_name"; "application_id";
                 "port"; "cpu"; "memory"; "children_stats_sum"]);
    ("process.cpu", ["user"; "system"; "percent"]);
    ("process.memory", ["resident"; "virtual"; "unique"]);
    ("process.children_stats_sum", ["cpu"; "memory"]);
    ("proxy", ["name"; "unified_service_name"; "application_id";
               "frontend"; "backend"; "servers_count"]);
    ("proxy.frontend", ["bin"; "bout"; "scur"; "smax"; "rate";
                        "req_rate"; "req_tot"; "hrsp_4xx"; "hrsp_5xx"]);
    ("proxy.backend", ["qcur"; "scur"; "hrsp_5xx"; "qtime"; "rtime"]);
    ("rabbitmq", ["utc_timestamp"; "disk_free_alarm"; "mem_alarm"; "name"]);
    ("queue", ["name"; "messages"]) ].

(** Modelled from the spec: the profile log classes [NodesProfileLog],
    [ProcessesProfileLog] and [ProxiesProfileLog] of
    appscale.hermes.stats.profile, "an opaque sink with write(snapshot) and
    an optional detail_mode setting".  A log remembers its class, the include
    lists it was built with and the value last assigned to
    [write_detailed_stats] ([None] while the manager has not assigned it).
    The classes define no truth-value method, so a log object is truthy. *)
Record ProfileLog : Type := mkProfileLog {
  log_class : category;
  include_lists : list (string * list string);
  write_detailed_stats : option value
}.

(** The pair of closures built by [_configure_profiling]: both capture
    [stats_source] and [profiler].  A stats source is identified by its
    class; [profiler] is a reference that may be None. *)
Record closure : Type := mkClosure {
  stats_source : category;
  profiler : option loc
}.

(** tornado.ioloop.PeriodicCallback, by its attributes. *)
Record PeriodicCallback : Type := mkPeriodicCallback {
  callback : closure;
  callback_time : value;
  _running : bool
}.

(** An opaque stats snapshot. *)
Inductive Stats : Type := Snapshot (id : nat).

(** The znode metadata handed to a watch; the handlers never read it. *)
Definition ZnodeStat := option Z.

Inductive level : Type := LvlDebug | LvlInfo | LvlError.

(** What the manager does to the outside, most recent first. *)
Inductive obs : Type :=
| Logged (lvl : level) (msg : string)
| Started (t : loc)
| Stopped (t : loc)
| Fetched (src : category) (max_age : Z) (fut : nat)
| Written (l : loc) (stats : Stats).

Record ProfilingManager : Type := mkProfilingManager {
  nodes_profile_log : option loc;
  processes_profile_log : option loc;
  proxies_profile_log : option loc;
  nodes_profile_task : option loc;
  processes_profile_task : option loc;
  proxies_profile_task : option loc
}.

(** The IOLoop: callbacks queued by [add_callback], oldest first, and the
    futures registered by [add_future] with the closure to run on them.
    [F] is the type of the queued callables. *)
Record IOLoop (F : Type) : Type := mkIOLoop {
  callbacks : list (F * option string * ZnodeStat);
  futures : list (nat * closure)
}.
Arguments mkIOLoop {F} _ _.
Arguments callbacks {F} _.
Arguments futures {F} _.

(** The callables the manager queues are its own three bound methods, named
    by their category. *)
Record World : Type := mkWorld {
  self : ProfilingManager;
  logs : list ProfileLog;
  tasks : list PeriodicCallback;
  ioloop : IOLoop category;
  next_future : nat;
  trace : list obs
}.

Definition with_self (m : ProfilingManager) (w : World) : World :=
  mkWorld m (logs w) (tasks w) (ioloop w) (next_future w) (trace w).
Definition with_logs (ls : list ProfileLog) (w : World) : World :=
  mkWorld (self w) ls (tasks w) (ioloop w) (next_future w) (trace w).
Definition with_tasks (ts : list PeriodicCallback) (w : World) : World :=
  mkWorld (self w) (logs w) ts (ioloop w) (next_future w) (trace w).
Definition with_ioloop (io : IOLoop category) (w : World) : World :=
  mkWorld (self w) (logs w) (tasks w) io (next_future w) (trace w).
Definition with_next_future (n : nat) (w : World) : World :=
  mkWorld (self w) (logs w) (tasks w) (ioloop w) n (trace w).
Definition with_trace (tr : list obs) (w : World) : World :=
  mkWorld (self w) (logs w) (tasks w) (ioloop w) (next_future w) tr.

(** ** The state-and-exception monad *)

Inductive outcome (A : Type) : Type :=
| Returned (a : A)
| Raised (e : exn).
Arguments Returned {A} _.
Arguments Raised {A} _.

Definition M (A : Type) : Type := World -> World * outcome A.

Definition ret {A} (a : A) : M A := fun w => (w, Returned a).
Definition raise {A} (e : exn) : M A := fun w => (w, Raised e).
Definition bind {A B} (m : M A) (k : A -> M B) : M B :=
  fun w =>
    match m w with
    | (w', Returned a) => k a w'
    | (w', Raised e) => (w', Raised e)
    end.

Notation "x <- m ;; k" := (bind m (fun x => k))
  (at level 100, m at next level, k at level 200, right associativity).
Notation "m ;;; k" := (bind m (fun _ => k))
  (at level 100, k at level 200, right associativity).

Definition lift {A} (r : exn + A) : M A :=
  match r with
  | inl e => raise e
  | inr a => ret a
  end.
Definition gets {A} (f : World -> A) : M A := fun w => (w, Returned (f w)).
Definition modify (f : World -> World) : M unit := fun w => (f w, Returned tt).
Definition emit (o : obs) : M unit := modify (fun w => with_trace (o :: trace w) w).

Definition logging_debug (msg : string) : M unit := emit (Logged LvlDebug msg).
Definition logging_info (msg : string) : M unit := emit (Logged LvlInfo msg).

(** ["{}".format(new_conf)] *)
Definition py_format (new_conf : option string) : string :=
  match new_conf with
  | None => "None"
  | Some s => s
  end.

(** ** Attributes of the manager *)

Definition set_nodes_profile_log (r : option loc) : M unit :=
  modify (fun w => let m := self w in
    with_self (mkProfilingManager r (processes_profile_log m) (proxies_profile_log m)
      (nodes_profile_task m) (processes_profile_task m) (proxies_profile_task m)) w).
Definition set_processes_profile_log (r : option loc) : M unit :=
  modify (fun w => let m := self w in
    with_self (mkProfilingManager (nodes_profile_log m) r (proxies_profile_log m)
      (nodes_profile_task m) (processes_profile_task m) (proxies_profile_task m)) w).
Definition set_proxies_profile_log (r : option loc) : M unit :=
  modify (fun w => let m := self w in
    with_self (mkProfilingManager (nodes_profile_log m) (processes_profile_log m) r
      (nodes_profile_task m) (processes_profile_task m) (proxies_profile_task m)) w).
Definition set_nodes_profile_task (r : option loc) : M unit :=
  modify (fun w => let m := self w in
    with_self (mkProfilingManager (nodes_profile_log m) (processes_profile_log m)
      (proxies_profile_log m) r (processes_profile_task m) (proxies_profile_task m)) w).
Definition set_processes_profile_task (r : option loc) : M unit :=
  modify (fun w => let m := self w in
    with_self (mkProfilingManager (nodes_profile_log m) (processes_profile_log m)
      (proxies_profile_log m) (nodes_profile_task m) r (proxies_profile_task m)) w).
Definition set_proxies_profile_task (r : option loc) : M unit :=
  modify (fun w => let m := self w in
    with_self (mkProfilingManager (nodes_profile_log m) (processes_profile_log m)
      (proxies_profile_log m) (nodes_profile_task m) (processes_profile_task m) r) w).

(** ** Profile logs *)

(** [cls(include_lists)]: a new log object; its address is returned. *)
Definition ProfileLog_new (cls : category) (il : list (string * list string)) : M loc :=
  fun w => (with_logs (logs w ++ [mkProfileLog cls il None]) w,
            Returned (List.length (logs w))).
Definition NodesProfileLog := ProfileLog_new Nodes.
Definition ProcessesProfileLog := ProfileLog_new Processes.
Definition ProxiesProfileLog := ProfileLog_new Proxies.

(** [r.write_detailed_stats = v] *)
Definition set_write_detailed_stats (r : option loc) (v : value) : M unit :=
  match r with
  | None => raise AttributeError
  | Some l =>
      modify (fun w =>
        with_logs (alter (fun lg => mkProfileLog (log_class lg) (include_lists lg) (Some v))
                         l (logs w)) w)
  end.

(** [r.write(stats)] *)
Definition ProfileLog_write (r : option loc) (stats : Stats) : M unit :=
  match r with
  | None => raise AttributeError
  | Some l => emit (Written l stats)
  end.

(** ** tornado.ioloop.PeriodicCallback

    The constructor refuses a callback time that is not positive.  [start]
    marks the task running and then computes its first deadline from the
    callback time; [schedule_next] gives the exception that computation
    raises, if any (TypeError on a callback time that is not a number,
    OverflowError on an integer no float can hold).  [stop] clears the
    running mark; a timer that elapses on a task that is not running does
    nothing. *)

Definition PeriodicCallback_init (cb : closure) (ct : value) : M loc :=
  if py_le_zero ct then raise ValueError
  else fun w => (with_tasks (tasks w ++ [mkPeriodicCallback cb ct false]) w,
                 Returned (List.length (tasks w))).

Definition set_running (b : bool) (pc : PeriodicCallback) : PeriodicCallback :=
  mkPeriodicCallback (callback pc) (callback_time pc) b.

Definition PeriodicCallback_stop (r : option loc) : M unit :=
  match r with
  | None => raise AttributeError
  | Some t =>
      modify (fun w => with_tasks (alter (set_running false) t (tasks w)) w) ;;;
      emit (Stopped t)
  end.

Definition PeriodicCallback_start (schedule_next : value -> option exn)
    (r : option loc) : M unit :=
  match r with
  | None => raise AttributeError
  | Some t =>
      modify (fun w => with_tasks (alter (set_running true) t (tasks w)) w) ;;;
      emit (Started t) ;;;
      pc <- gets (fun w => tasks w !! t) ;;
      match pc with
      | Some pc =>
          match schedule_next (callback_time pc) with
          | Some e => raise e
          | None => ret tt
          end
      | None => ret tt
      end
  end.

(** ** Stats sources and the IOLoop *)

(** Modelled from the spec: the cluster stats sources of
    appscale.hermes.stats.producers.cluster_stats, "fetch_async(max_age) ->
    Future".  [stats_source.get_current_async(max_age=...)]: the call is
    observed with its argument, and a new pending future is returned. *)
Definition get_current_async (src : category) (max_age : Z) : M nat :=
  fun w => (with_next_future (S (next_future w))
              (with_trace (Fetched src max_age (next_future w) :: trace w) w),
            Returned (next_future w)).

(** [IOLoop.current().add_future(future, callback)] *)
Definition IOLoop_add_future (fut : nat) (cb : closure) : M unit :=
  modify (fun w => with_ioloop
    (mkIOLoop (callbacks (ioloop w)) (futures (ioloop w) ++ [(fut, cb)])) w).

(** [IOLoop.current().add_callback(f, new_conf, znode_stat)] *)
Definition add_callback {F} (f : F) (new_conf : option string) (znode_stat : ZnodeStat)
    (io : IOLoop F) : IOLoop F :=
  mkIOLoop (callbacks io ++ [(f, new_conf, znode_stat)]) (futures io).

(** ** _configure_profiling *)

(** [write_stats_callback(future_stats)]: [future_stats.result()] re-raises
    the exception of a failed future, otherwise gives (stats, failures). *)
Definition write_stats_callback (cl : closure)
    (future_stats : exn + (Stats * list string)) : M unit :=
  res <- lift future_stats ;;
  let stats := fst res in
  ProfileLog_write (profiler cl) stats.

Definition profiling_periodical_callback (cl : closure) : M unit :=
  future_stats <- get_current_async (stats_source cl) 0 ;;
  IOLoop_add_future future_stats cl.

Definition _configure_profiling (stats_source : category) (profiler : option loc)
    (interval : value) : M (option loc) :=
  ct <- lift (py_mul_1000 interval) ;;
  t <- PeriodicCallback_init (mkClosure stats_source profiler) ct ;;
  ret (Some t).

(** ** ProfilingManager *)

Section Manager.

(** [json.loads] of the standard library: the decoded document, or the
    exception the decoder raises (ValueError on text that is not JSON,
    RuntimeError on text nested deeper than the interpreter recurses).
    [schedule_next] is the first deadline computation of
    [PeriodicCallback.start].  The development holds for every such decoder
    and every such computation. *)
Variable json_loads : string -> exn + value.
Variable schedule_next : value -> option exn.

Definition json_loads_ (new_conf : option string) : M value :=
  match new_conf with
  | None => raise TypeError
  | Some s =>
      match json_loads s with
      | inr v => ret v
      | inl e => raise e
      end
  end.

Definition update_nodes_profiling_conf (new_conf : option string)
    (znode_stat : ZnodeStat) : M unit :=
  if py_not_str new_conf then
    logging_debug "No node stats profiling configs are specified yet"
  else
    logging_info ("New nodes stats profiling configs: " +:+ py_format new_conf) ;;;
    conf <- json_loads_ new_conf ;;
    enabled <- lift (py_getitem conf "enabled") ;;
    interval <- lift (py_getitem conf "interval") ;;
    if py_truthy enabled then
      log0 <- gets (fun w => nodes_profile_log (self w)) ;;
      (if negb (bool_decide (is_Some log0)) then
         l <- NodesProfileLog DEFAULT_INCLUDE_LISTS ;;
         set_nodes_profile_log (Some l)
       else ret tt) ;;;
      task0 <- gets (fun w => nodes_profile_task (self w)) ;;
      (if bool_decide (is_Some task0) then PeriodicCallback_stop task0 else ret tt) ;;;
      log1 <- gets (fun w => nodes_profile_log (self w)) ;;
      t <- _configure_profiling Nodes log1 interval ;;
      set_nodes_profile_task t ;;;
      task1 <- gets (fun w => nodes_profile_task (self w)) ;;
      PeriodicCallback_start schedule_next task1
    else
      task0 <- gets (fun w => nodes_profile_task (self w)) ;;
      if bool_decide (is_Some task0) then
        PeriodicCallback_stop task0 ;;;
        set_nodes_profile_task None
      else ret tt.

Definition update_processes_profiling_conf (new_conf : option string)
    (znode_stat : ZnodeStat) : M unit :=
  if py_not_str new_conf then
    logging_debug "No processes stats profiling configs are specified yet"
  else
    logging_info ("New processes stats profiling configs: " +:+ py_format new_conf) ;;;
    conf <- json_loads_ new_conf ;;
    enabled <- lift (py_getitem conf "enabled") ;;
    interval <- lift (py_getitem conf "interval") ;;
    detailed <- lift (py_getitem conf "detailed") ;;
    if py_truthy enabled then
      log0 <- gets (fun w => processes_profile_log (self w)) ;;
      (if negb (bool_decide (is_Some log0)) then
         l <- ProcessesProfileLog DEFAULT_INCLUDE_LISTS ;;
         set_processes_profile_log (Some l)
       else ret tt) ;;;
      log1 <- gets (fun w => processes_profile_log (self w)) ;;
      set_write_detailed_stats log1 detailed ;;;
      task0 <- gets (fun w => processes_profile_task (self w)) ;;
      (if bool_decide (is_Some task0) then PeriodicCallback_stop task0 else ret tt) ;;;
      log2 <- gets (fun w => processes_profile_log (self w)) ;;
      t <- _configure_profiling Processes log2 interval ;;
      set_processes_profile_task t ;;;
      task1 <- gets (fun w => processes_profile_task (self w)) ;;
      PeriodicCallback_start schedule_next task1
    else
      task0 <- gets (fun w => processes_profile_task (self w)) ;;
      if bool_decide (is_Some task0) then
        PeriodicCallback_stop task0 ;;;
        set_processes_profile_task None
      else ret tt.

Definition update_proxies_profiling_conf (new_conf : option string)
    (znode_stat : ZnodeStat) : M unit :=
  if py_not_str new_conf then
    logging_debug "No proxies stats profiling configs are specified yet"
  else
    logging_info ("New proxies stats profiling configs: " +:+ py_format new_conf) ;;;
    conf <- json_loads_ new_conf ;;
    enabled <- lift (py_getitem conf "enabled") ;;
    interval <- lift (py_getitem conf "interval") ;;
    detailed <- lift (py_getitem conf "detailed") ;;
    if py_truthy enabled then
      log0 <- gets (fun w => proxies_profile_log (self w)) ;;
      (if negb (bool_decide (is_Some log0)) then
         l <- ProxiesProfileLog DEFAULT_INCLUDE_LISTS ;;
         set_proxies_profile_log (Some l)
       else ret tt) ;;;
      log1 <- gets (fun w => proxies_profile_log (self w)) ;;
      set_write_detailed_stats log1 detailed ;;;
      task0 <- gets (fun w => proxies_profile_task (self w)) ;;
      (if bool_decide (is_Some task0) then PeriodicCallback_stop task0 else ret tt) ;;;
      log2 <- gets (fun w => proxies_profile_log (self w)) ;;
      t <- _configure_profiling Proxies log2 interval ;;
      set_proxies_profile_task t ;;;
      task1 <- gets (fun w => proxies_profile_task (self w)) ;;
      PeriodicCallback_start schedule_next task1
    else
      task0 <- gets (fun w => proxies_profile_task (self w)) ;;
      if bool_decide (is_Some task0) then
        PeriodicCallback_stop task0 ;;;
        set_proxies_profile_task None
      else ret tt.

(** The bound method of the manager that handles a category. *)
Definition handler (c : category) : option string -> ZnodeStat -> M unit :=
  match c with
  | Nodes => update_nodes_profiling_conf
  | Processes => update_processes_profiling_conf
  | Proxies => update_proxies_profiling_conf
  end.

(** ** The event loop

    What can happen to a running manager: a watch of the configuration store
    calls the bridged wrapper of a handler; the loop runs its oldest queued
    callback; the timer of a periodic callback elapses; a pending future
    completes, with an exception or with (stats, failures). *)
Inductive event : Type :=
| Deliver (c : category) (new_conf : option string) (znode_stat : ZnodeStat)
| RunCallback
| Fire (t : loc)
| Resolve (fut : nat) (res : exn + (Stats * list string)).

(** The loop catches and logs what a callback raises. *)
Definition guarded (m : M unit) : World -> World :=
  fun w =>
    match m w with
    | (w', Returned _) => w'
    | (w', Raised e) => with_trace (Logged LvlError "Exception in callback" :: trace w') w'
    end.

Fixpoint take_future (fut : nat) (fs : list (nat * closure))
    : option (closure * list (nat * closure)) :=
  match fs with
  | [] => None
  | (f, cl) :: rest =>
      if Nat.eqb f fut then Some (cl, rest)
      else match take_future fut rest with
           | Some (cl', rest') => Some (cl', (f, cl) :: rest')
           | None => None
           end
  end.

(** [bridge_to_ioloop(update_function)] returns [update_in_ioloop], which
    only queues the call on the IOLoop. *)
Definition bridge_to_ioloop {F} (update_function : F)
    : option string -> ZnodeStat -> IOLoop F -> IOLoop F :=
  let update_in_ioloop new_conf znode_stat :=
    add_callback update_function new_conf znode_stat in
  update_in_ioloop.

(** [ProfilingManager.__init__]: every slot starts as None, and the three
    watches are given the bridged handlers. *)
Definition ProfilingManager_init : ProfilingManager :=
  mkProfilingManager None None None None None None.

Definition watch (c : category) : option string -> ZnodeStat -> IOLoop category -> IOLoop category :=
  bridge_to_ioloop c.

Definition initial_world : World :=
  mkWorld ProfilingManager_init [] [] (mkIOLoop [] []) O [].

Definition step (e : event) (w : World) : World :=
  match e with
  | Deliver c new_conf znode_stat =>
      with_ioloop (watch c new_conf znode_stat (ioloop w)) w
  | RunCallback =>
      match callbacks (ioloop w) with
      | [] => w
      | (c, new_conf, znode_stat) :: rest =>
          guarded (handler c new_conf znode_stat)
                  (with_ioloop (mkIOLoop rest (futures (ioloop w))) w)
      end
  | Fire t =>
      match tasks w !! t with
      | Some pc =>
          if _running pc then guarded (profiling_periodical_callback (callback pc)) w
          else w
      | None => w
      end
  | Resolve fut res =>
      match take_future fut (futures (ioloop w)) with
      | Some (cl, rest) =>
          guarded (write_stats_callback cl res)
                  (with_ioloop (mkIOLoop (callbacks (ioloop w)) rest) w)
      | None => w
      end
  end.

Fixpoint run (es : list event) (w : World) : World :=
  match es with
  | [] => w
  | e :: es' => run es' (step e w)
  end.

End Manager.

(** ** Slots by category *)

Definition log_slot (c : category) (m : ProfilingManager) : option loc :=
  match c with
  | Nodes => nodes_profile_log m
  | Processes => processes_profile_log m
  | Proxies => proxies_profile_log m
  end.

Definition task_slot (c : category) (m : ProfilingManager) : option loc :=
  match c with
  | Nodes => nodes_profile_task m
  | Processes => processes_profile_task m
  | Proxies => proxies_profile_task m
  end.

(** The keys a handler reads from the parsed document. *)
Definition required_keys (c : category) : list string :=
  match c with
  | Nodes => ["enabled"; "interval"]
  | Processes | Proxies => ["enabled"; "interval"; "detailed"]
  end.

(** The tasks that are started and not stopped after a trace. *)
Fixpoint is_active (tr : list obs) (t : loc) : bool :=
  match tr with
  | [] => false
  | Started t' :: tr' => if Nat.eqb t' t then true else is_active tr' t
  | Stopped t' :: tr' => if Nat.eqb t' t then false else is_active tr' t
  | _ :: tr' => is_active tr' t
  end.

(** The category a task collects for: the class of its stats source. *)
Definition task_category (w : World) (t : loc) : option category :=
  match tasks w !! t with
  | Some pc => Some (stats_source (callback pc))
  | None => None
  end.

Definition task_running (w : World) (t : loc) : bool :=
  match tasks w !! t with
  | Some pc => _running pc
  | None => false
  end.

(** ** A reference JSON decoder

    Used to run the handlers on concrete configuration text.  It decodes the
    JSON of RFC 8259 with integer numbers and plain decimal fractions, and
    answers ValueError on everything else, which includes exponents, unicode
    escapes and the NaN and Infinity literals. *)
Module JsonRef.

Definition quote : ascii := ascii_of_nat 34.
Definition backslash : ascii := ascii_of_nat 92.

Definition is_ws (c : ascii) : bool :=
  let n := nat_of_ascii c in
  (Nat.eqb n 32 || Nat.eqb n 9 || Nat.eqb n 10 || Nat.eqb n 13)%bool.

Fixpoint skip_ws (s : string) : string :=
  match s with
  | String c rest => if is_ws c then skip_ws rest else s
  | EmptyString => s
  end.

Definition digit_of (c : ascii) : option Z :=
  let n := nat_of_ascii c in
  if (Nat.leb 48 n && Nat.leb n 57)%bool then Some (Z.of_nat (n - 48)) else None.

(** Reads a run of digits: its value, its length and the rest. *)
Fixpoint digits (s : string) (acc : Z) (len : nat) : Z * nat * string :=
  match s with
  | String c rest =>
      match digit_of c with
      | Some d => digits rest (acc * 10 + d) (S len)
      | None => (acc, len, s)
      end
  | EmptyString => (acc, len, s)
  end.

Definition strip_prefix (p s : string) : option string :=
  if String.prefix p s
  then Some (String.substring (String.length p) (String.length s - String.length p) s)
  else None.

(** The characters of a string literal after its opening quote. *)
Fixpoint string_body (s : string) : option (string * string) :=
  match s with
  | EmptyString => None
  | String c rest =>
      if Ascii.eqb c quote then Some (EmptyString, rest)
      else if Ascii.eqb c backslash then
        match rest with
        | String e rest' =>
            let plain (x : ascii) :=
              match string_body rest' with
              | Some (body, tl) => Some (String x body, tl)
              | None => None
              end in
            if Ascii.eqb e quote then plain quote
            else if Ascii.eqb e backslash then plain backslash
            else if Ascii.eqb e "/" then plain "/"%char
            else if Ascii.eqb e "b" then plain (ascii_of_nat 8)
            else if Ascii.eqb e "f" then plain (ascii_of_nat 12)
            else if Ascii.eqb e "n" then plain (ascii_of_nat 10)
            else if Ascii.eqb e "r" then plain (ascii_of_nat 13)
            else if Ascii.eqb e "t" then plain (ascii_of_nat 9)
            else None
        | EmptyString => None
        end
      else if Nat.ltb (nat_of_ascii c) 32 then None
      else
        match string_body rest with
        | Some (body, tl) => Some (String c body, tl)
        | None => None
        end
  end.

(** [-]? int [. digits]?  An integer has no leading zero.  A fraction is
    decoded when the division that gives the nearest double is exact to
    compute: at most fifteen digits in all. *)
Definition number (s : string) : option (value * string) :=
  let '(neg, s1) :=
    match s with
    | String "-" r => (true, r)
    | _ => (false, s)
    end in
  let '(n, len, s2) := digits s1 0 0 in
  let sign (z : Z) := if neg then - z else z in
  match len with
  | O => None
  | _ =>
      if (Nat.ltb 1 len && String.prefix "0" s1)%bool then None
      else
        match s2 with
        | String "." s3 =>
            let '(m, flen, s4) := digits s3 n 0 in
            match flen, s4 with
            | O, _ => None
            | _, String "e" _ | _, String "E" _ => None
            | _, _ =>
                if Nat.ltb 15 (len + flen) then None
                else
                  let num := PrimFloat.of_uint63 (Uint63.of_Z m) in
                  let den := PrimFloat.of_uint63 (Uint63.of_Z (10 ^ Z.of_nat flen)) in
                  let x := PrimFloat.div num den in
                  Some (PyFloat (if neg then PrimFloat.opp x else x), s4)
            end
        | String "e" _ | String "E" _ => None
        | _ => Some (PyInt (sign n), s2)
        end
  end.

(** The elements of an array after the first. *)
Fixpoint elements (pv : string -> option (value * string)) (fuel : nat)
    (s : string) (acc : list value) : option (list value * string) :=
  match fuel with
  | O => None
  | S fuel' =>
      match skip_ws s with
      | String "]" rest => Some (rev acc, rest)
      | String "," rest =>
          match pv rest with
          | Some (v, rest') => elements pv fuel' rest' (v :: acc)
          | None => None
          end
      | _ => None
      end
  end.

(** One [key : value] member. *)
Definition member (pv : string -> option (value * string)) (s : string)
    : option (string * value * string) :=
  match skip_ws s with
  | String c rest =>
      if Ascii.eqb c quote then
        match string_body rest with
        | Some (k, rest1) =>
            match skip_ws rest1 with
            | String ":" rest2 =>
                match pv rest2 with
                | Some (v, rest3) => Some (k, v, rest3)
                | None => None
                end
            | _ => None
            end
        | None => None
        end
      else None
  | EmptyString => None
  end.

(** The members of an object after the first; a later member shadows an
    earlier one with the same key. *)
Fixpoint members (pv : string -> option (value * string)) (fuel : nat)
    (s : string) (acc : list (string * value))
    : option (list (string * value) * string) :=
  match fuel with
  | O => None
  | S fuel' =>
      match skip_ws s with
      | String "}" rest => Some (acc, rest)
      | String "," rest =>
          match member pv rest with
          | Some (k, v, rest') => members pv fuel' rest' ((k, v) :: acc)
          | None => None
          end
      | _ => None
      end
  end.

Fixpoint parse_value (fuel : nat) (s : string) : option (value * string) :=
  match fuel with
  | O => None
  | S fuel' =>
      let s := skip_ws s in
      match s with
      | EmptyString => None
      | String c rest =>
          if Ascii.eqb c "{" then
            match skip_ws rest with
            | String "}" rest' => Some (PyDict [], rest')
            | _ =>
                match member (parse_value fuel') rest with
                | Some (k, v, rest') =>
                    match members (parse_value fuel') fuel' rest' [(k, v)] with
                    | Some (kvs, tl) => Some (PyDict kvs, tl)
                    | None => None
                    end
                | None => None
                end
            end
          else if Ascii.eqb c "[" then
            match skip_ws rest with
            | String "]" rest' => Some (PyList [], rest')
            | _ =>
                match parse_value fuel' rest with
                | Some (v, rest') =>
                    match elements (parse_value fuel') fuel' rest' [v] with
                    | Some (vs, tl) => Some (PyList vs, tl)
                    | None => None
                    end
                | None => None
                end
            end
          else if Ascii.eqb c quote then
            match string_body rest with
            | Some (str, tl) => Some (PyStr str, tl)
            | None => None
            end
          else
            match strip_prefix "true" s, strip_prefix "false" s, strip_prefix "null" s with
            | Some tl, _, _ => Some (PyBool true, tl)
            | _, Some tl, _ => Some (PyBool false, tl)
            | _, _, Some tl => Some (PyNone, tl)
            | _, _, _ => number s
            end
      end
  end.

Definition json_loads (s : string) : exn + value :=
  match parse_value (S (String.length s)) s with
  | Some (v, rest) =>
      match skip_ws rest with
      | EmptyString => inr v
      | _ => inl ValueError
      end
  | None => inl ValueError
  end.

(** Configuration text is written with single quotes here; [json_text]
    gives the text with the JSON double quotes. *)
Fixpoint json_text (s : string) : string :=
  match s with
  | EmptyString => EmptyString
  | String c rest =>
      String (if Ascii.eqb c "'" then quote else c) (json_text rest)
  end.

End JsonRef.

(** ** A reference first deadline computation

    [start] divides the callback time by 1000.0: a boolean, an integer or a
    float can be divided, an integer only when a float can hold it (below
    2^1024 - 2^970 in absolute value, where rounding reaches the largest
    float); nothing else can be divided by a float. *)
Module TornadoRef.

Definition float_limit : Z := 2 ^ 1024 - 2 ^ 970.

Definition schedule_next (callback_time : value) : option exn :=
  match callback_time with
  | PyBool _ | PyFloat _ => None
  | PyInt z => if Z.leb float_limit (Z.abs z) then Some OverflowError else None
  | PyNone | PyStr _ | PyList _ | PyDict _ => Some TypeError
  end.

End TornadoRef.

(** ** The handlers as world transformers

    The world each handler leaves behind, written once for all categories
    as a composition of plain functions on worlds.  Lemmas [handler_empty],
    [handler_not_json], [handler_key_error], [handler_disabled] and
    [handler_enabled] prove that the three monadic handlers above compute
    exactly these worlds and outcomes. *)

Definition empty_msg (c : category) : string :=
  match c with
  | Nodes => "No node stats profiling configs are specified yet"
  | Processes => "No processes stats profiling configs are specified yet"
  | Proxies => "No proxies stats profiling configs are specified yet"
  end.

Definition info_msg (c : category) (raw : string) : string :=
  match c with
  | Nodes => "New nodes stats profiling configs: " +:+ raw
  | Processes => "New processes stats profiling configs: " +:+ raw
  | Proxies => "New proxies stats profiling configs: " +:+ raw
  end.

Definition set_log_slot (c : category) (r : option loc) (m : ProfilingManager)
    : ProfilingManager :=
  match c with
  | Nodes => mkProfilingManager r (processes_profile_log m) (proxies_profile_log m)
      (nodes_profile_task m) (processes_profile_task m) (proxies_profile_task m)
  | Processes => mkProfilingManager (nodes_profile_log m) r (proxies_profile_log m)
      (nodes_profile_task m) (processes_profile_task m) (proxies_profile_task m)
  | Proxies => mkProfilingManager (nodes_profile_log m) (processes_profile_log m) r
      (nodes_profile_task m) (processes_profile_task m) (proxies_profile_task m)
  end.

Definition set_task_slot (c : category) (r : option loc) (m : ProfilingManager)
    : ProfilingManager :=
  match c with
  | Nodes => mkProfilingManager (nodes_profile_log m) (processes_profile_log m)
      (proxies_profile_log m) r (processes_profile_task m) (proxies_profile_task m)
  | Processes => mkProfilingManager (nodes_profile_log m) (processes_profile_log m)
      (proxies_profile_log m) (nodes_profile_task m) r (proxies_profile_task m)
  | Proxies => mkProfilingManager (nodes_profile_log m) (processes_profile_log m)
      (proxies_profile_log m) (nodes_profile_task m) (processes_profile_task m) r
  end.

Definition logged (lvl : level) (msg : string) (w : World) : World :=
  with_trace (Logged lvl msg :: trace w) w.

(** The slot's log, created first when the slot is empty. *)
Definition ensure_log (c : category) (w : World) : World :=
  match log_slot c (self w) with
  | Some _ => w
  | None =>
      with_self (set_log_slot c (Some (List.length (logs w))) (self w))
        (with_logs (logs w ++ [mkProfileLog c DEFAULT_INCLUDE_LISTS None]) w)
  end.

Definition set_detail (v : value) (lg : ProfileLog) : ProfileLog :=
  mkProfileLog (log_class lg) (include_lists lg) (Some v).

(** The detail flag is assigned by the processes and proxies handlers. *)
Definition apply_detail (c : category) (d : value) (w : World) : World :=
  match c, log_slot c (self w) with
  | Nodes, _ => w
  | _, Some l => with_logs (alter (set_detail d) l (logs w)) w
  | _, None => w
  end.

Definition stop_slot (c : category) (w : World) : World :=
  match task_slot c (self w) with
  | Some t =>
      with_trace (Stopped t :: trace w)
        (with_tasks (alter (set_running false) t (tasks w)) w)
  | None => w
  end.

Definition clear_slot (c : category) (w : World) : World :=
  match task_slot c (self w) with
  | Some _ => with_self (set_task_slot c None (self w)) w
  | None => w
  end.

(** A new task for the slot: built, stored and started. *)
Definition launch (c : category) (ct : value) (w : World) : World :=
  let t := List.length (tasks w) in
  let pc := mkPeriodicCallback (mkClosure c (log_slot c (self w))) ct true in
  with_trace (Started t :: trace w)
    (with_self (set_task_slot c (Some t) (self w))
       (with_tasks (tasks w ++ [pc]) w)).

Definition started (schedule_next : value -> option exn) (ct : value)
    : outcome unit :=
  match schedule_next ct with
  | Some e => Raised e
  | None => Returned tt
  end.

Definition enabled_update (schedule_next : value -> option exn) (c : category)
    (raw : string) (iv d : value) (w : World) : World * outcome unit :=
  let w' := stop_slot c (apply_detail c d (ensure_log c (logged LvlInfo (info_msg c raw) w))) in
  match py_mul_1000 iv with
  | inl e => (w', Raised e)
  | inr ct =>
      if py_le_zero ct then (w', Raised ValueError)
      else (launch c ct w', started schedule_next ct)
  end.

Definition disabled_update (c : category) (raw : string) (w : World) : World :=
  clear_slot c (stop_slot c (logged LvlInfo (info_msg c raw) w)).

(** The first exception met when the required keys are read in order. *)
Fixpoint first_error (keys : list string) (conf : value) : option exn :=
  match keys with
  | [] => None
  | k :: ks =>
      match py_getitem conf k with
      | inl e => Some e
      | inr _ => first_error ks conf
      end
  end.

(** [conf] holds the values [en], [iv] and, where the category reads it,
    [d] under the required keys. *)
Definition reads (c : category) (conf en iv d : value) : Prop :=
  py_getitem conf "enabled" = inr en /\
  py_getitem conf "interval" = inr iv /\
  (c <> Nodes -> py_getitem conf "detailed" = inr d).

(** ** Invariants of the manager *)

(** No task of category [c] is running. *)
Definition quiet (c : category) (w : World) : Prop :=
  forall t pc, tasks w !! t = Some pc -> stats_source (callback pc) = c ->
               _running pc = false.

(** At every moment of the trace, two active tasks of one category are the
    same task. *)
Definition history (w : World) : Prop :=
  forall tr', tr' `suffix_of` trace w ->
  forall c t1 t2,
    is_active tr' t1 = true -> is_active tr' t2 = true ->
    task_category w t1 = Some c -> task_category w t2 = Some c ->
    t1 = t2.

Definition log_class_at (w : World) (l : loc) : option category :=
  match logs w !! l with
  | Some lg => Some (log_class lg)
  | None => None
  end.

(** A closure writes to a log of the class of its stats source. *)
Definition closure_ok (w : World) (cl : closure) : Prop :=
  exists l, profiler cl = Some l /\ log_class_at w l = Some (stats_source cl).

Record Inv (w : World) : Prop := mkInv {
  inv_active : forall t, is_active (trace w) t = task_running w t;
  inv_slot : forall t pc, tasks w !! t = Some pc -> _running pc = true ->
             task_slot (stats_source (callback pc)) (self w) = Some t;
  inv_task_ref : forall c t, task_slot c (self w) = Some t ->
                 task_category w t = Some c;
  inv_log_ref : forall c l, log_slot c (self w) = Some l ->
                log_class_at w l = Some c;
  inv_started : forall t, In (Started t) (trace w) -> (t < List.length (tasks w))%nat;
  inv_history : history w;
  inv_profiler : forall t pc, tasks w !! t = Some pc -> closure_ok w (callback pc);
  inv_future : forall f cl, In (f, cl) (futures (ioloop w)) -> closure_ok w cl;
  inv_max_age : forall src m fut, In (Fetched src m fut) (trace w) -> m = 0
}.

(** An observation that starts or stops no task, and fetches fresh stats
    when it is a fetch. *)
Definition neutral (o : obs) : Prop :=
  match o with
  | Started _ | Stopped _ => False
  | Fetched _ m _ => m = 0
  | _ => True
  end.

(** No pending future belongs to category [c]. *)
Definition no_fetch_in_flight (c : category) (w : World) : Prop :=
  forall f cl, In (f, cl) (futures (ioloop w)) -> stats_source cl <> c.

(** What the trace may gain while category [c] is quiet: no fetch for [c],
    and no write to a log of [c] unless a fetch was in flight. *)
Definition quiet_gain (c : category) (w : World) (k : list obs) : Prop :=
  (forall m fut, ~ In (Fetched c m fut) k) /\
  (no_fetch_in_flight c w ->
   forall l s, In (Written l s) k -> log_class_at w l <> Some c).

(** ** Notions used to state the properties *)

(** A world the manager can be in: the initial world after some events. *)
Definition reachable (json_loads : string -> exn + value)
    (schedule_next : value -> option exn) (w : World) : Prop :=
  exists es, w = run json_loads schedule_next es initial_world.

(** [w'] is [w] with one more logging record and nothing else changed. *)
Definition only_logged (lvl : level) (msg : string) (w w' : World) : Prop :=
  self w' = self w /\ logs w' = logs w /\ tasks w' = tasks w /\
  ioloop w' = ioloop w /\ next_future w' = next_future w /\
  trace w' = Logged lvl msg :: trace w.

(** The raw value is not empty and the decoder raises on it, or it decodes
    to a document from which a required key cannot be read. *)
Definition malformed (json_loads : string -> exn + value) (c : category)
    (raw : string) : Prop :=
  raw <> EmptyString /\
  ((exists e, json_loads raw = inl e) \/
   exists conf k e, json_loads raw = inr conf /\ In k (required_keys c) /\
                    py_getitem conf k = inl e).

(** The raw value decodes to a document with every required key, an enabled
    value that is true, the interval [iv] and the detail value [d]. *)
Definition enabling (json_loads : string -> exn + value) (c : category)
    (raw : string) (iv d : value) : Prop :=
  raw <> EmptyString /\
  exists conf en, json_loads raw = inr conf /\ reads c conf en iv d /\
                  py_truthy en = true.

(** The same with an enabled value that is false. *)
Definition disabling (json_loads : string -> exn + value) (c : category)
    (raw : string) : Prop :=
  raw <> EmptyString /\
  exists conf en iv d, json_loads raw = inr conf /\ reads c conf en iv d /\
                       py_truthy en = false.

(** [iv] is an interval a periodic callback accepts: its thousandfold [ct]
    is a positive number. *)
Definition valid_interval (iv ct : value) : Prop :=
  py_mul_1000 iv = inr ct /\ py_le_zero ct = false /\ py_is_number ct = true.

(** Time passing: a timer elapses, a future completes, a watch queues an
    update; no queued update is run. *)
Definition no_update (e : event) : Prop :=
  match e with
  | RunCallback => False
  | _ => True
  end.

(** The statement that a malformed value is dropped silently. *)
Definition rejected_silently (json_loads : string -> exn + value)
    (schedule_next : value -> option exn) (c : category)
    (raw : string) (znode_stat : ZnodeStat) (w : World) : Prop :=
  let r := handler json_loads schedule_next c (Some raw) znode_stat w in
  snd r = Returned tt /\ self (fst r) = self w.

(** The statement that the log of a task started after a disable is not the
    log of the slot before the disable. *)
Definition fresh_log_after_reenable (json_loads : string -> exn + value)
    (schedule_next : value -> option exn)
    (c : category) (raw_off raw_on : string) (w : World) : Prop :=
  let w_off := fst (handler json_loads schedule_next c (Some raw_off) None w) in
  let w_on := fst (handler json_loads schedule_next c (Some raw_on) None w_off) in
  forall l t pc,
    log_slot c (self w) = Some l ->
    task_slot c (self w_on) = Some t -> tasks w_on !! t = Some pc ->
    profiler (callback pc) <> Some l.

(** The statement that a handler stops the running task of its slot. *)
Definition stops_running_task (json_loads : string -> exn + value)
    (schedule_next : value -> option exn) (c : category)
    (raw : string) (w : World) : Prop :=
  forall t, task_slot c (self w) = Some t -> task_running w t = true ->
    let w' := fst (handler json_loads schedule_next c (Some raw) None w) in
    task_running w' t = false /\ task_slot c (self w') = None.


(** ** Concrete configurations and worlds *)

Definition conf_on : string :=
  JsonRef.json_text "{'enabled': true, 'interval': 5, 'detailed': false}".
Definition conf_on_detailed : string :=
  JsonRef.json_text "{'enabled': true, 'interval': 10, 'detailed': true}".
Definition conf_off : string :=
  JsonRef.json_text "{'enabled': false, 'interval': 5, 'detailed': false}".
Definition conf_only_disabled : string :=
  JsonRef.json_text "{'enabled': false}".
Definition conf_not_json : string := "{".
(** An interval of 10^309 seconds: more than a float can hold. *)
Definition conf_huge_interval : string :=
  JsonRef.json_text ("{'enabled': true, 'interval': 1" +:+ string_repeat "0" 309
                     +:+ ", 'detailed': false}").

(** The world after the first configuration of a category enabled it: the
    slot holds log 0 and the running task 0. *)
Definition world_on (c : category) : World :=
  run JsonRef.json_loads TornadoRef.schedule_next
      [Deliver c (Some conf_on) None; RunCallback] initial_world.

(** ** Stats API routes *)

Inductive HandlerClass : Type :=
| CurrentStatsHandler
| CurrentClusterStatsHandler
| Respond404Handler.

(** The stats sources handed to the API handlers: the local ones are passed
    as classes, the cluster ones as new instances. *)
Inductive source : Type :=
| NodeStatsSource
| ProcessesStatsSource
| ProxiesStatsSource
| RabbitMQStatsSource
| PushQueueStatsSource
| ClusterNodesStatsSource
| ClusterProcessesStatsSource
| ClusterProxiesStatsSource
| ClusterRabbitMQStatsSource
| ClusterPushQueueStatsSource.

(** A value of an [init_kwargs] dict. *)
Inductive kwarg : Type :=
| KwSource (s : source)
| KwIncludeLists (il : list (string * list string))
| KwReason (reason : string).

(** [HandlerInfo], the attrs container for handler information. *)
Record HandlerInfo : Type := mkHandlerInfo {
  handler_class : HandlerClass;
  init_kwargs : gmap string kwarg
}.

(** [{'source': s, 'default_include_lists': DEFAULT_INCLUDE_LISTS}] *)
Definition stats_kwargs (s : source) : gmap string kwarg :=
  <["default_include_lists" := KwIncludeLists DEFAULT_INCLUDE_LISTS]>
    (<["source" := KwSource s]> ∅).

(** [{'reason': r}] *)
Definition reason_kwargs (r : string) : gmap string kwarg :=
  <["reason" := KwReason r]> ∅.

(** [[(route, handler.handler_class, handler.init_kwargs)
      for route, handler in routes.iteritems()]]: the order of the list is
    the iteration order of the dict, which the code does not fix. *)
Definition route_list (routes : gmap string HandlerInfo)
    : list (string * HandlerClass * gmap string kwarg) :=
  (fun rh => (rh.1, handler_class rh.2, init_kwargs rh.2)) <$> map_to_list routes.

Definition get_local_stats_api_routes (is_lb_node is_tq_node : bool)
    : list (string * HandlerClass * gmap string kwarg) :=
  let local_node_stats_handler :=
    mkHandlerInfo CurrentStatsHandler (stats_kwargs NodeStatsSource) in
  let local_processes_stats_handler :=
    mkHandlerInfo CurrentStatsHandler (stats_kwargs ProcessesStatsSource) in
  let local_proxies_stats_handler :=
    if is_lb_node then
      mkHandlerInfo CurrentStatsHandler (stats_kwargs ProxiesStatsSource)
    else
      mkHandlerInfo Respond404Handler
        (reason_kwargs "Only LB node provides proxies stats") in
  let '(local_rabbitmq_stats_handler, local_push_queue_stats_handler) :=
    if is_tq_node then
      (mkHandlerInfo CurrentStatsHandler (stats_kwargs RabbitMQStatsSource),
       mkHandlerInfo CurrentStatsHandler (stats_kwargs PushQueueStatsSource))
    else
      (mkHandlerInfo Respond404Handler
         (reason_kwargs "Only TQ nodes provide RabbitMQ stats"),
       mkHandlerInfo Respond404Handler
         (reason_kwargs "Only TQ nodes provide push queue stats")) in
  let routes : gmap string HandlerInfo :=
    <["/stats/local/push_queues" := local_push_queue_stats_handler]>
    (<["/stats/local/rabbitmq" := local_rabbitmq_stats_handler]>
    (<["/stats/local/proxies" := local_proxies_stats_handler]>
    (<["/stats/local/processes" := local_processes_stats_handler]>
    (<["/stats/local/node" := local_node_stats_handler]> ∅)))) in
  route_list routes.

Definition get_cluster_stats_api_routes (is_master : bool)
    : list (string * HandlerClass * gmap string kwarg) :=
  let '(cluster_node_stats_handler, cluster_processes_stats_handler,
        cluster_proxies_stats_handler, cluster_rabbitmq_stats_handler,
        cluster_push_queue_stats_handler) :=
    if is_master then
      (mkHandlerInfo CurrentClusterStatsHandler (stats_kwargs ClusterNodesStatsSource),
       mkHandlerInfo CurrentClusterStatsHandler (stats_kwargs ClusterProcessesStatsSource),
       mkHandlerInfo CurrentClusterStatsHandler (stats_kwargs ClusterProxiesStatsSource),
       mkHandlerInfo CurrentClusterStatsHandler (stats_kwargs ClusterRabbitMQStatsSource),
       mkHandlerInfo CurrentClusterStatsHandler (stats_kwargs ClusterPushQueueStatsSource))
    else
      let cluster_stub_handler :=
        mkHandlerInfo Respond404Handler
          (reason_kwargs "Only master node provides cluster stats") in
      (cluster_stub_handler, cluster_stub_handler, cluster_stub_handler,
       cluster_stub_handler, cluster_stub_handler) in
  let routes : gmap string HandlerInfo :=
    <["/stats/cluster/push_queues" := cluster_push_queue_stats_handler]>
    (<["/stats/cluster/rabbitmq" := cluster_rabbitmq_stats_handler]>
    (<["/stats/cluster/proxies" := cluster_proxies_stats_handler]>
    (<["/stats/cluster/processes" := cluster_processes_stats_handler]>
    (<["/stats/cluster/nodes" := cluster_node_stats_handler]> ∅)))) in
  route_list routes.

(** The paths of the two route tables. *)
Definition local_paths : list string :=
  ["/stats/local/node"; "/stats/local/processes"; "/stats/local/proxies";
   "/stats/local/rabbitmq"; "/stats/local/push_queues"].
Definition cluster_paths : list string :=
  ["/stats/cluster/nodes"; "/stats/cluster/processes"; "/stats/cluster/proxies";
   "/stats/cluster/rabbitmq"; "/stats/cluster/push_queues"].

(** ** Further notions about runs *)

(** The tasks started in a trace, most recent first. *)
Fixpoint starts (tr : list obs) : list loc :=
  match tr with
  | [] => []
  | Started t :: tr' => t :: starts tr'
  | _ :: tr' => starts tr'
  end.

Fixpoint count_fetched (tr : list obs) : nat :=
  match tr with
  | [] => O
  | Fetched _ _ _ :: tr' => S (count_fetched tr')
  | _ :: tr' => count_fetched tr'
  end.

Fixpoint count_written (tr : list obs) : nat :=
  match tr with
  | [] => O
  | Written _ _ :: tr' => S (count_written tr')
  | _ :: tr' => count_written tr'
  end.

(** Every stop of a task comes after a start of that task. *)
Definition stops_follow_starts (tr : list obs) : Prop :=
  forall k t tr', tr = k ++ Stopped t :: tr' -> In (Started t) tr'.

Record Inv2 (w : World) : Prop := mkInv2 {
  inv_log_owned : forall l lg, logs w !! l = Some lg ->
                  log_slot (log_class lg) (self w) = Some l;
  inv_starts : NoDup (starts (trace w));
  inv_slot_started : forall c t, task_slot c (self w) = Some t ->
                     In (Started t) (trace w);
  inv_stops : stops_follow_starts (trace w);
  inv_balance : (count_written (trace w) + List.length (futures (ioloop w))
                 <= count_fetched (trace w))%nat
}.

(** One change a handler of category [c] makes to the world. *)
Inductive move (c : category) (w : World) : World -> Prop :=
| mv_logged (lvl : level) (msg : string) : move c w (logged lvl msg w)
| mv_ensure : move c w (ensure_log c w)
| mv_detail (d : value) : move c w (apply_detail c d w)
| mv_stop : move c w (stop_slot c w)
| mv_clear : quiet c w -> move c w (clear_slot c w)
| mv_launch (ct : value) :
    quiet c w -> is_Some (log_slot c (self w)) -> move c w (launch c ct w).

(** A sequence of such changes, each made in a world that satisfies [Inv]. *)
Inductive moves (c : category) : World -> World -> Prop :=
| ms_done (w : World) : moves c w w
| ms_next (w w1 w2 : World) :
    Inv w -> move c w w1 -> moves c w1 w2 -> moves c w w2.

(** What a handler of another category leaves alone for category [c']: the
    two slots, the tasks of the category and the logs of the category, those
    of the world before and those of the world after alike, so that no task
    and no log of the category is changed, removed or added. *)
Definition same_for (c' : category) (w w' : World) : Prop :=
  log_slot c' (self w') = log_slot c' (self w) /\
  task_slot c' (self w') = task_slot c' (self w) /\
  (forall t, task_category w t = Some c' \/ task_category w' t = Some c' ->
             tasks w' !! t = tasks w !! t) /\
  (forall l, log_class_at w l = Some c' \/ log_class_at w' l = Some c' ->
             logs w' !! l = logs w !! l).

(** The world with another queue of callbacks. *)
Definition set_queue (q : list (category * option string * ZnodeStat)) (w : World)
    : World :=
  with_ioloop (mkIOLoop q (futures (ioloop w))) w.

(** A delivered update: the category of the watch and the two arguments. *)
Definition update : Type := category * option string * ZnodeStat.

Definition deliver (u : update) : event := Deliver u.1.1 u.1.2 u.2.

(** What the loop does with a queued update. *)
Definition apply_update (json_loads : string -> exn + value)
    (schedule_next : value -> option exn) (w : World)
    (u : update) : World :=
  guarded (handler json_loads schedule_next u.1.1 u.1.2 u.2) w.

(** Where an exception [e] a handler of category [c] raises on [new_conf]
    comes from: the decoder; the reading of a required key of the decoded
    document; the product of the interval and 1000; the constructor of the
    periodic callback, on a callback time that is not positive; or the start
    of the new task. *)
Definition raised_by (json_loads : string -> exn + value)
    (schedule_next : value -> option exn) (c : category)
    (new_conf : option string) (e : exn) : Prop :=
  exists raw, new_conf = Some raw /\ raw <> EmptyString /\
    (json_loads raw = inl e \/
     exists conf, json_loads raw = inr conf /\
       ((exists k, In k (required_keys c) /\ py_getitem conf k = inl e /\
                   (e = KeyError k \/ e = TypeError)) \/
        (exists iv, py_getitem conf "interval" = inr iv /\
           (py_mul_1000 iv = inl e /\ e = TypeError \/
            exists ct, py_mul_1000 iv = inr ct /\
              (py_le_zero ct = true /\ e = ValueError \/
               py_le_zero ct = false /\ schedule_next ct = Some e))))).

(** The outcomes a handler of category [c] can have on [new_conf]. *)
Definition handler_outcome (json_loads : string -> exn + value)
    (schedule_next : value -> option exn) (c : category)
    (new_conf : option string) (o : outcome unit) : Prop :=
  match o with
  | Returned _ => True
  | Raised e => raised_by json_loads schedule_next c new_conf e
  end.

(** The log references the slots hold are kept. *)
Definition keeps_logs (w w' : World) : Prop :=
  forall c l, log_slot c (self w) = Some l -> log_slot c (self w') = Some l.

(** Further concrete configurations. *)
Definition conf_list : string := "[1]".
Definition conf_null_interval : string :=
  JsonRef.json_text "{'enabled': true, 'interval': null, 'detailed': false}".

(** Unfolds the handler of category [c] on a raw value that is not empty
    ([Hne]), up to the call of the decoder. *)
Ltac start_handler c Hne :=
  destruct c;
  cbv [handler update_nodes_profiling_conf update_processes_profiling_conf
       update_proxies_profiling_conf];
  rewrite Hne;
  cbv [bind logging_info emit modify json_loads_ py_format ret raise lift gets].

(** * Proofs *)

Lemma alter_app_last {A} (f : A -> A) (l : list A) (x : A) :
  alter f (List.length l) (l ++ [x]) = l ++ [f x].
Proof. induction l as [|y l IH]; simpl; [reflexivity | f_equal; exact IH]. Qed.

Lemma lookup_app_last {A} (l : list A) (x : A) :
  (l ++ [x]) !! List.length l = Some x.
Proof. induction l as [|y l IH]; simpl; [reflexivity | exact IH]. Qed.

Lemma py_not_str_nonempty (raw : string) :
  raw <> EmptyString -> py_not_str (Some raw) = false.
Proof. destruct raw; [congruence | reflexivity]. Qed.

Section Cases.

Variable json_loads : string -> exn + value.
Variable schedule_next : value -> option exn.
Variables (c : category) (raw : string) (znode_stat : ZnodeStat) (w : World).
Hypothesis Hraw : raw <> EmptyString.

Lemma handler_empty (new_conf : option string) :
  py_not_str new_conf = true ->
  handler json_loads schedule_next c new_conf znode_stat w
  = (logged LvlDebug (empty_msg c) w, Returned tt).
Proof.
  intros H. destruct c;
    cbv [handler update_nodes_profiling_conf update_processes_profiling_conf
         update_proxies_profiling_conf]; rewrite H; reflexivity.
Qed.

Lemma handler_not_json (e : exn) :
  json_loads raw = inl e ->
  handler json_loads schedule_next c (Some raw) znode_stat w
  = (logged LvlInfo (info_msg c raw) w, Raised e).
Proof. intros H. pose proof (py_not_str_nonempty raw Hraw) as Hne;
  start_handler c Hne; rewrite H; reflexivity. Qed.

Lemma handler_key_error (conf : value) (e : exn) :
  json_loads raw = inr conf ->
  first_error (required_keys c) conf = Some e ->
  handler json_loads schedule_next c (Some raw) znode_stat w
  = (logged LvlInfo (info_msg c raw) w, Raised e).
Proof.
  intros H He. pose proof (py_not_str_nonempty raw Hraw) as Hne;
  start_handler c Hne; rewrite H; simpl in He;
    repeat (destruct (py_getitem conf _); [injection He as <-; reflexivity |]);
    discriminate.
Qed.

Lemma handler_disabled (conf en iv d : value) :
  json_loads raw = inr conf ->
  reads c conf en iv d ->
  py_truthy en = false ->
  handler json_loads schedule_next c (Some raw) znode_stat w
  = (disabled_update c raw w, Returned tt).
Proof.
  intros H (Hen & Hiv & Hd) Hf.
  pose proof (py_not_str_nonempty raw Hraw) as Hne;
  start_handler c Hne; rewrite H, Hen, Hiv, ?Hd, Hf by discriminate;
    destruct w as [[nl pl xl nt pt xt] ls ts io nf tr];
    destruct nt, pt, xt; reflexivity.
Qed.

Lemma handler_enabled (conf en iv d : value) :
  json_loads raw = inr conf ->
  reads c conf en iv d ->
  py_truthy en = true ->
  handler json_loads schedule_next c (Some raw) znode_stat w
  = enabled_update schedule_next c raw iv d w.
Proof.
  intros H (Hen & Hiv & Hd) Hf.
  pose proof (py_not_str_nonempty raw Hraw) as Hne;
  start_handler c Hne; rewrite H, Hen, Hiv, ?Hd, Hf by discriminate;
    destruct w as [[nl pl xl nt pt xt] ls ts io nf tr];
    cbv [enabled_update _configure_profiling bind lift ret raise PeriodicCallback_init].
  all: destruct (py_mul_1000 iv) as [e|ct]; [destruct nl, pl, xl, nt, pt, xt; reflexivity|].
  all: destruct (py_le_zero ct); [destruct nl, pl, xl, nt, pt, xt; reflexivity|].
  all: destruct nl, pl, xl, nt, pt, xt.
  all: cbn -[DEFAULT_INCLUDE_LISTS String.append].
  all: cbv [launch bind modify emit gets ret raise]; cbn -[DEFAULT_INCLUDE_LISTS String.append].
  all: rewrite ?alter_app_last, ?lookup_app_last; cbn [callback_time set_running].
  all: cbv [started]; destruct (schedule_next ct); reflexivity.
Qed.

End Cases.
Lemma is_active_started (tr : list obs) (t : loc) :
  is_active tr t = true -> In (Started t) tr.
Proof.
  induction tr as [|o tr IH]; simpl; [discriminate|].
  destruct o as [| t' | t' | |]; try solve [intros H; right; auto].
  - destruct (Nat.eqb_spec t' t) as [->|]; [left; reflexivity | right; auto].
  - destruct (Nat.eqb_spec t' t); [discriminate | right; auto].
Qed.

Lemma suffix_cons_cases {A} (l1 l2 : list A) (x : A) :
  l1 `suffix_of` x :: l2 -> l1 = x :: l2 \/ l1 `suffix_of` l2.
Proof.
  intros [[|y k] E]; simplify_eq/=.
  - by left.
  - right. by exists k.
Qed.

(** Two running tasks of one category are the task of the slot. *)
Lemma running_unique (w : World) :
  (forall t, is_active (trace w) t = task_running w t) ->
  (forall t pc, tasks w !! t = Some pc -> _running pc = true ->
     task_slot (stats_source (callback pc)) (self w) = Some t) ->
  forall c t1 t2,
    is_active (trace w) t1 = true -> is_active (trace w) t2 = true ->
    task_category w t1 = Some c -> task_category w t2 = Some c -> t1 = t2.
Proof.
  intros HA HB c t1 t2 H1 H2 C1 C2.
  rewrite HA in H1, H2. unfold task_running, task_category in *.
  destruct (tasks w !! t1) as [pc1|] eqn:E1; [|discriminate].
  destruct (tasks w !! t2) as [pc2|] eqn:E2; [|discriminate].
  pose proof (HB _ _ E1 H1) as S1. pose proof (HB _ _ E2 H2) as S2.
  injection C1 as C1. injection C2 as C2. rewrite C1 in S1. rewrite C2 in S2.
  congruence.
Qed.

(** The history grows by one observation when the categories of the tasks
    already allocated do not change. *)
Lemma history_cons (w w' : World) (o : obs) :
  Inv w ->
  trace w' = o :: trace w ->
  (forall t, (t < List.length (tasks w))%nat -> task_category w' t = task_category w t) ->
  (forall t, is_active (trace w') t = task_running w' t) ->
  (forall t pc, tasks w' !! t = Some pc -> _running pc = true ->
     task_slot (stats_source (callback pc)) (self w') = Some t) ->
  history w'.
Proof.
  intros I Htr Hcat HA HB tr' Hsuf c t1 t2 H1 H2 C1 C2.
  rewrite Htr in Hsuf. apply suffix_cons_cases in Hsuf as [-> | Hsuf].
  - rewrite <- Htr in H1, H2. eapply running_unique; eauto.
  - assert (forall t, is_active tr' t = true -> (t < List.length (tasks w))%nat) as Hlt.
    { intros t Ht. apply (inv_started w I). apply is_active_started in Ht.
      destruct Hsuf as [k ->]. apply in_or_app. by right. }
    rewrite Hcat in C1, C2 by auto.
    eapply (inv_history w I); eauto.
Qed.

Lemma task_slot_set_task (c c' : category) (r : option loc) (m : ProfilingManager) :
  task_slot c' (set_task_slot c r m) = if decide (c' = c) then r else task_slot c' m.
Proof. destruct c, c'; reflexivity. Qed.

Lemma log_slot_set_task (c c' : category) (r : option loc) (m : ProfilingManager) :
  log_slot c' (set_task_slot c r m) = log_slot c' m.
Proof. destruct c, c'; reflexivity. Qed.

Lemma task_slot_set_log (c c' : category) (r : option loc) (m : ProfilingManager) :
  task_slot c' (set_log_slot c r m) = task_slot c' m.
Proof. destruct c, c'; reflexivity. Qed.

Lemma log_slot_set_log (c c' : category) (r : option loc) (m : ProfilingManager) :
  log_slot c' (set_log_slot c r m) = if decide (c' = c) then r else log_slot c' m.
Proof. destruct c, c'; reflexivity. Qed.

(** The invariant reads the slots, the heaps, the pending futures and the
    trace, and nothing else; futures may go, and come with a good closure. *)
Lemma Inv_frame (w w' : World) :
  self w' = self w -> logs w' = logs w -> tasks w' = tasks w ->
  trace w' = trace w ->
  (forall f cl, In (f, cl) (futures (ioloop w')) ->
     In (f, cl) (futures (ioloop w)) \/ closure_ok w cl) ->
  Inv w -> Inv w'.
Proof.
  destruct w as [m ls ts [cbs fs] nf tr], w' as [m' ls' ts' [cbs' fs'] nf' tr'].
  simpl. intros -> -> -> -> Hf [A B C D E F G H J].
  constructor; try assumption.
  intros f cl Hin. destruct (Hf f cl Hin) as [Hold | Hok]; [by eapply H | exact Hok].
Qed.

Lemma closure_ok_logs (w w' : World) (cl : closure) :
  (forall l c, log_class_at w l = Some c -> log_class_at w' l = Some c) ->
  closure_ok w cl -> closure_ok w' cl.
Proof. intros Hm (l & Hp & Hc). exists l. auto. Qed.

Lemma Inv_observe (o : obs) (w : World) :
  neutral o -> Inv w -> Inv (with_trace (o :: trace w) w).
Proof.
  intros Hn I. pose proof I as [A B C D E F G H J].
  assert (forall t, is_active (o :: trace w) t = is_active (trace w) t) as Ho.
  { intros t. destruct o; simpl in *; tauto. }
  assert (forall t, is_active (trace (with_trace (o :: trace w) w)) t
                  = task_running (with_trace (o :: trace w) w) t) as A'.
  { intros t. change (is_active (o :: trace w) t = task_running w t).
    rewrite Ho. apply A. }
  constructor; try assumption.
  - intros t [-> | Hin]; [destruct Hn | auto].
  - eapply (history_cons w); eauto.
  - intros src m fut [-> | Hin]; [exact Hn | eauto].
Qed.

Lemma log_class_at_app (w : World) (lg : ProfileLog) (l : loc) (c : category) :
  log_class_at w l = Some c ->
  log_class_at (with_logs (logs w ++ [lg]) w) l = Some c.
Proof.
  unfold log_class_at. simpl. destruct (logs w !! l) eqn:E; [|discriminate].
  by rewrite (lookup_app_l_Some _ _ _ _ E).
Qed.

Lemma Inv_ensure_log (c : category) (w : World) : Inv w -> Inv (ensure_log c w).
Proof.
  intros I. unfold ensure_log. destruct (log_slot c (self w)) eqn:Hs; [assumption|].
  pose proof I as [A B C D E F G H J].
  set (lg := mkProfileLog c DEFAULT_INCLUDE_LISTS None).
  assert (forall l c', log_class_at w l = Some c' ->
            log_class_at (with_logs (logs w ++ [lg]) w) l = Some c') as Hm
    by (intros; by apply log_class_at_app).
  constructor; simpl; try assumption.
  - intros t pc Ht Hr. rewrite task_slot_set_log. by apply B.
  - intros c' t. rewrite task_slot_set_log. apply C.
  - intros c' l. rewrite log_slot_set_log. case_decide as Hc.
    + intros [= <-]. subst c'. unfold log_class_at. simpl.
      by rewrite lookup_app_last.
    + intros Hl. apply Hm. by apply D.
  - intros t pc Ht. eapply closure_ok_logs; [exact Hm | by eapply G].
  - intros f cl Hin. eapply closure_ok_logs; [exact Hm | by eapply H].
Qed.

Lemma ensure_log_some (c : category) (w : World) :
  is_Some (log_slot c (self (ensure_log c w))).
Proof.
  unfold ensure_log. destruct (log_slot c (self w)) eqn:Hs; [rewrite Hs; eauto|].
  simpl. rewrite log_slot_set_log, decide_True by done. eauto.
Qed.

Lemma log_class_at_alter (w : World) (d : value) (l0 l : loc) :
  log_class_at (with_logs (alter (set_detail d) l0 (logs w)) w) l = log_class_at w l.
Proof.
  unfold log_class_at. cbn [logs with_logs]. destruct (decide (l0 = l)) as [->|Hne].
  - rewrite list_lookup_alter_eq. by destruct (logs w !! l).
  - by rewrite list_lookup_alter_ne.
Qed.

Lemma Inv_alter_detail (d : value) (l0 : loc) (w : World) :
  Inv w -> Inv (with_logs (alter (set_detail d) l0 (logs w)) w).
Proof.
  intros I. pose proof I as [A B C D E F G H J].
  assert (forall l c', log_class_at w l = Some c' ->
    log_class_at (with_logs (alter (set_detail d) l0 (logs w)) w) l = Some c') as Hm
    by (intros; by rewrite log_class_at_alter).
  constructor; simpl; try assumption.
  - intros c' l Hl. apply Hm. by apply D.
  - intros t pc Ht. eapply closure_ok_logs; [exact Hm | by eapply G].
  - intros f cl Hin. eapply closure_ok_logs; [exact Hm | by eapply H].
Qed.

Lemma Inv_apply_detail (c : category) (d : value) (w : World) :
  Inv w -> Inv (apply_detail c d w).
Proof.
  intros I. unfold apply_detail.
  destruct c; [assumption | |];
    (destruct (log_slot _ (self w)); [by apply Inv_alter_detail | assumption]).
Qed.

Lemma lookup_app_single_ne {A} (l : list A) (x : A) (i : nat) :
  i <> List.length l -> (l ++ [x]) !! i = l !! i.
Proof.
  intros Hne. destruct (decide (i < List.length l)%nat) as [Hlt|Hge].
  - by apply lookup_app_l.
  - rewrite (lookup_ge_None_2 l i) by lia.
    apply lookup_ge_None_2. rewrite length_app. simpl. lia.
Qed.

Lemma task_category_alter (w : World) (b : bool) (t0 t : loc) :
  task_category (with_tasks (alter (set_running b) t0 (tasks w)) w) t
  = task_category w t.
Proof.
  unfold task_category. cbn [tasks with_tasks].
  destruct (decide (t0 = t)) as [->|Hne].
  - rewrite list_lookup_alter_eq. by destruct (tasks w !! t).
  - by rewrite list_lookup_alter_ne.
Qed.

Lemma task_running_stop (w : World) (t0 t : loc) :
  task_running (with_tasks (alter (set_running false) t0 (tasks w)) w) t
  = if Nat.eqb t0 t then false else task_running w t.
Proof.
  unfold task_running. cbn [tasks with_tasks].
  destruct (Nat.eqb_spec t0 t) as [->|Hne].
  - rewrite list_lookup_alter_eq. by destruct (tasks w !! t).
  - by rewrite list_lookup_alter_ne.
Qed.

Lemma lookup_alter_running (ts : list PeriodicCallback) (b : bool) (t0 t : loc)
    (pc : PeriodicCallback) :
  alter (set_running b) t0 ts !! t = Some pc ->
  exists pc0, ts !! t = Some pc0 /\ callback pc = callback pc0 /\
              _running pc = (if Nat.eqb t0 t then b else _running pc0).
Proof.
  destruct (Nat.eqb_spec t0 t) as [->|Hne].
  - rewrite list_lookup_alter_eq. destruct (ts !! t) as [pc0|]; [|discriminate].
    intros [= <-]. exists pc0. simpl. auto.
  - rewrite list_lookup_alter_ne by done. intros H. exists pc. auto.
Qed.

Lemma Inv_stop_slot (c : category) (w : World) : Inv w -> Inv (stop_slot c w).
Proof.
  intros I. unfold stop_slot.
  destruct (task_slot c (self w)) as [t0|] eqn:Hs; [|assumption].
  pose proof I as [A B C D E F G H J].
  set (w' := with_trace _ _).
  assert (forall t, is_active (trace w') t = task_running w' t) as A'.
  { intros t. change (is_active (Stopped t0 :: trace w) t
      = task_running (with_tasks (alter (set_running false) t0 (tasks w)) w) t).
    rewrite task_running_stop. simpl. destruct (Nat.eqb t0 t); [reflexivity | apply A]. }
  assert (forall t pc, tasks w' !! t = Some pc -> _running pc = true ->
            task_slot (stats_source (callback pc)) (self w') = Some t) as B'.
  { intros t pc Ht Hr. apply lookup_alter_running in Ht as (pc0 & Ht & Hcb & Hrun).
    rewrite Hcb. apply B; [assumption|].
    destruct (Nat.eqb t0 t); congruence. }
  constructor; try assumption.
  - intros c' t Hc. change (task_category
      (with_tasks (alter (set_running false) t0 (tasks w)) w) t = Some c').
    rewrite task_category_alter. by apply C.
  - intros t [Hin | Hin]; [discriminate|].
    change (t < List.length (alter (set_running false) t0 (tasks w)))%nat.
    rewrite length_alter. by apply E.
  - apply (history_cons w w' (Stopped t0)); try done.
    intros t _. apply (task_category_alter w false t0 t).
  - intros t pc Ht. apply lookup_alter_running in Ht as (pc0 & Ht & Hcb & _).
    rewrite Hcb. exact (G _ _ Ht).
  - intros src m fut [Hin | Hin]; [discriminate | eauto].
Qed.

Lemma quiet_stop_slot (c : category) (w : World) : Inv w -> quiet c (stop_slot c w).
Proof.
  intros I t pc Ht Hc. destruct (_running pc) eqn:Hr; [|reflexivity].
  unfold stop_slot in Ht. destruct (task_slot c (self w)) as [t0|] eqn:Hs.
  - apply lookup_alter_running in Ht as (pc0 & Ht & Hcb & Hrun).
    destruct (Nat.eqb_spec t0 t) as [->|Hne]; [congruence|].
    pose proof (inv_slot w I t pc0 Ht) as Hslot.
    rewrite <- Hcb, Hc, Hs in Hslot. rewrite <- Hrun, Hr in Hslot.
    specialize (Hslot eq_refl). congruence.
  - pose proof (inv_slot w I t pc Ht Hr) as Hslot. congruence.
Qed.

Lemma Inv_clear_slot (c : category) (w : World) :
  Inv w -> quiet c w -> Inv (clear_slot c w).
Proof.
  intros I Q. unfold clear_slot.
  destruct (task_slot c (self w)) as [t0|] eqn:Hs; [|assumption].
  pose proof I as [A B C D E F G H J].
  constructor; try assumption.
  - intros t pc Ht Hr. simpl. rewrite task_slot_set_task.
    case_decide as Hc; [|by apply B].
    specialize (Q t pc Ht Hc). congruence.
  - intros c' t. simpl. rewrite task_slot_set_task.
    case_decide; [discriminate | apply C].
  - intros c' l. simpl. rewrite log_slot_set_task. apply D.
Qed.

Lemma Inv_launch (c : category) (ct : value) (w : World) :
  Inv w -> quiet c w -> is_Some (log_slot c (self w)) -> Inv (launch c ct w).
Proof.
  intros I Q [l0 Hl0]. pose proof I as [A B C D E F G H J].
  unfold launch. set (n := List.length (tasks w)).
  set (pc := mkPeriodicCallback _ _ _). set (w' := with_trace _ _).
  assert (forall t, t <> n -> tasks w' !! t = tasks w !! t) as Hold
    by (intros t Hne; by apply lookup_app_single_ne).
  assert (tasks w' !! n = Some pc) as Hnew by apply lookup_app_last.
  assert (forall t, is_active (trace w') t = task_running w' t) as A'.
  { intros t. change (is_active (Started n :: trace w) t = task_running w' t).
    unfold task_running. simpl is_active.
    destruct (Nat.eqb_spec n t) as [<-|Hne]; [by rewrite Hnew|].
    rewrite Hold by done. apply A. }
  assert (forall t pc', tasks w' !! t = Some pc' -> _running pc' = true ->
            task_slot (stats_source (callback pc')) (self w') = Some t) as B'.
  { intros t pc' Ht Hr. change (task_slot (stats_source (callback pc'))
      (set_task_slot c (Some n) (self w)) = Some t).
    rewrite task_slot_set_task. destruct (decide (t = n)) as [->|Hne].
    - rewrite Hnew in Ht. injection Ht as <-. simpl. by rewrite decide_True.
    - rewrite Hold in Ht by done. case_decide as Hc; [|by apply B].
      specialize (Q t pc' Ht Hc). congruence. }
  constructor; try assumption.
  - intros c' t. change (task_slot c' (set_task_slot c (Some n) (self w)) = Some t ->
      task_category w' t = Some c').
    rewrite task_slot_set_task. unfold task_category. case_decide as Hc.
    + intros [= <-]. rewrite Hnew. simpl. congruence.
    + intros Hs. pose proof (C _ _ Hs) as Hcat. unfold task_category in Hcat.
      destruct (tasks w !! t) as [pc0|] eqn:Ht; [|discriminate].
      assert (t <> n) as Hne by (apply lookup_lt_Some in Ht; unfold n; lia).
      rewrite Hold, Ht by done. exact Hcat.
  - intros c' l. change (log_slot c' (set_task_slot c (Some n) (self w)) = Some l ->
      log_class_at w l = Some c').
    rewrite log_slot_set_task. apply D.
  - intros t Hin. change (t < List.length (tasks w ++ [pc]))%nat.
    rewrite length_app. simpl. destruct Hin as [[= <-] | Hin].
    + unfold n. lia.
    + specialize (E t Hin). lia.
  - apply (history_cons w w' (Started n)); try done.
    intros t Hlt. unfold task_category. rewrite Hold by (unfold n; lia). done.
  - intros t pc' Ht. destruct (decide (t = n)) as [->|Hne].
    + rewrite Hnew in Ht. injection Ht as <-. exists l0. simpl. split; [done|].
      by apply D.
    + rewrite Hold in Ht by done. exact (G _ _ Ht).
  - intros src m fut [Hin | Hin]; [discriminate | eauto].
Qed.

Lemma first_error_none (c : category) (conf : value) :
  first_error (required_keys c) conf = None ->
  exists en iv d, reads c conf en iv d.
Proof.
  unfold reads. destruct c; simpl;
    destruct (py_getitem conf "enabled") as [|en]; try discriminate;
    destruct (py_getitem conf "interval") as [|iv]; try discriminate.
  - intros _. exists en, iv, PyNone. by repeat split.
  - destruct (py_getitem conf "detailed") as [|d]; [discriminate|].
    intros _. by exists en, iv, d.
  - destruct (py_getitem conf "detailed") as [|d]; [discriminate|].
    intros _. by exists en, iv, d.
Qed.

Lemma Inv_logged (lvl : level) (msg : string) (w : World) :
  Inv w -> Inv (logged lvl msg w).
Proof. apply Inv_observe. exact I. Qed.

Lemma Inv_disabled_update (c : category) (raw : string) (w : World) :
  Inv w -> Inv (disabled_update c raw w).
Proof.
  intros I. unfold disabled_update.
  set (w1 := logged _ _ w). assert (Inv w1) as I1 by by apply Inv_logged.
  apply Inv_clear_slot; [by apply Inv_stop_slot | by apply quiet_stop_slot].
Qed.

Lemma stop_slot_self (c : category) (w : World) : self (stop_slot c w) = self w.
Proof. unfold stop_slot. by destruct (task_slot c (self w)). Qed.

Lemma apply_detail_self (c : category) (d : value) (w : World) :
  self (apply_detail c d w) = self w.
Proof. unfold apply_detail. destruct c; try done; by destruct (log_slot _ (self w)). Qed.

Lemma Inv_enabled_update (schedule_next : value -> option exn) (c : category)
    (raw : string) (iv d : value) (w : World) :
  Inv w -> Inv (fst (enabled_update schedule_next c raw iv d w)).
Proof.
  intros I. unfold enabled_update.
  set (w1 := ensure_log c (logged LvlInfo (info_msg c raw) w)).
  assert (Inv w1) as I1 by by apply Inv_ensure_log, Inv_logged.
  assert (is_Some (log_slot c (self w1))) as S1 by apply ensure_log_some.
  set (w2 := apply_detail c d w1).
  assert (Inv w2) as I2 by by apply Inv_apply_detail.
  assert (Inv (stop_slot c w2)) as I3 by by apply Inv_stop_slot.
  destruct (py_mul_1000 iv) as [e|ct]; [exact I3|].
  destruct (py_le_zero ct); [exact I3|]. simpl.
  apply Inv_launch; [exact I3 | by apply quiet_stop_slot |].
  rewrite stop_slot_self. unfold w2. by rewrite apply_detail_self.
Qed.

Section Preservation.

Variable json_loads : string -> exn + value.
Variable schedule_next : value -> option exn.

Lemma Inv_handler (c : category) (new_conf : option string) (znode_stat : ZnodeStat)
    (w : World) :
  Inv w -> Inv (fst (handler json_loads schedule_next c new_conf znode_stat w)).
Proof.
  intros I. destruct (py_not_str new_conf) eqn:Hn.
  { rewrite handler_empty by done. by apply Inv_logged. }
  destruct new_conf as [raw|]; [|discriminate].
  assert (raw <> EmptyString) as Hraw by (intros ->; discriminate).
  destruct (json_loads raw) as [e0|conf] eqn:Hj.
  { rewrite (handler_not_json _ _ _ _ _ _ Hraw e0) by done. by apply Inv_logged. }
  destruct (first_error (required_keys c) conf) as [e|] eqn:He.
  { rewrite (handler_key_error _ _ _ _ _ _ Hraw conf e) by done. by apply Inv_logged. }
  apply first_error_none in He as (en & iv & d & Hr).
  destruct (py_truthy en) eqn:Ht.
  - rewrite (handler_enabled _ _ _ _ _ _ Hraw conf en iv d) by done.
    by apply Inv_enabled_update.
  - rewrite (handler_disabled _ _ _ _ _ _ Hraw conf en iv d) by done.
    by apply Inv_disabled_update.
Qed.

Lemma Inv_guarded (m : M unit) (w : World) : Inv (fst (m w)) -> Inv (guarded m w).
Proof.
  unfold guarded. destruct (m w) as [w' [[]|e]]; simpl; [done|].
  intros I. by apply (Inv_logged LvlError).
Qed.

Lemma take_future_In (fut : nat) (fs rest : list (nat * closure)) (cl : closure) :
  take_future fut fs = Some (cl, rest) ->
  In (fut, cl) fs /\ forall x, In x rest -> In x fs.
Proof.
  revert rest. induction fs as [|[f cl'] fs IH]; intros rest; simpl; [discriminate|].
  destruct (Nat.eqb_spec f fut) as [->|Hne].
  - intros [= -> ->]. auto.
  - destruct (take_future fut fs) as [[cl0 rest0]|]; [|discriminate].
    intros [= -> <-]. destruct (IH rest0 eq_refl) as [H1 H2]. split; [auto|].
    intros x [<- | Hx]; auto.
Qed.

Lemma Inv_step (e : event) (w : World) : Inv w -> Inv (step json_loads schedule_next e w).
Proof.
  intros I. destruct e as [c new_conf zs | | t | fut res]; simpl.
  - eapply Inv_frame; [..| exact I]; try reflexivity. simpl. auto.
  - destruct (callbacks (ioloop w)) as [|[[c nc] zs] rest]; [exact I|].
    apply Inv_guarded, Inv_handler.
    eapply Inv_frame; [..| exact I]; try reflexivity. simpl. auto.
  - destruct (tasks w !! t) as [pc|] eqn:Ht; [|exact I].
    destruct (_running pc); [|exact I].
    apply Inv_guarded. simpl.
    eapply (Inv_frame (with_trace (Fetched (stats_source (callback pc)) 0 (next_future w)
                                     :: trace w) w));
      [reflexivity..| |apply Inv_observe; [reflexivity | exact I]].
    simpl. intros f cl Hin. apply in_app_or in Hin as [Hin | [[= <- <-] | []]]; [by left|].
    right. exact (inv_profiler w I t pc Ht).
  - destruct (take_future fut (futures (ioloop w))) as [[cl rest]|] eqn:Hf; [|exact I].
    apply take_future_In in Hf as [_ Hsub].
    set (w0 := with_ioloop _ w).
    assert (Inv w0) as I0.
    { eapply Inv_frame; [..| exact I]; try reflexivity. simpl. auto. }
    apply Inv_guarded. unfold write_stats_callback, bind, lift.
    destruct res as [ex|[stats fl]]; simpl; [exact I0|].
    destruct (profiler cl) as [l|]; simpl; [|exact I0].
    apply (Inv_observe (Written l stats) w0); [done | exact I0].
Qed.

Lemma Inv_initial : Inv initial_world.
Proof.
  constructor.
  - intros t. reflexivity.
  - intros t pc Ht. discriminate.
  - intros c t Ht. by destruct c.
  - intros c l Hl. by destruct c.
  - intros t [].
  - intros tr' Hsuf. apply suffix_nil_inv in Hsuf as ->. discriminate.
  - intros t pc Ht. discriminate.
  - intros f cl [].
  - intros src m fut [].
Qed.

Lemma Inv_run (es : list event) (w : World) : Inv w -> Inv (run json_loads schedule_next es w).
Proof.
  revert w. induction es as [|e es IH]; intros w I; simpl; [exact I|].
  by apply IH, Inv_step.
Qed.

End Preservation.

(** ** Properties of the handlers *)

Lemma logged_only (lvl : level) (msg : string) (w : World) :
  only_logged lvl msg w (logged lvl msg w).
Proof. by repeat split. Qed.

Lemma first_error_some (keys : list string) (conf : value) (k : string) (e : exn) :
  In k keys -> py_getitem conf k = inl e ->
  exists e', first_error keys conf = Some e'.
Proof.
  induction keys as [|k' keys IH]; simpl; [tauto|].
  intros [-> | Hin] He.
  - rewrite He. eauto.
  - destruct (py_getitem conf k'); eauto.
Qed.

Lemma first_error_dict (keys : list string) (kvs : list (string * value)) (e : exn) :
  first_error keys (PyDict kvs) = Some e ->
  exists k, In k keys /\ dict_get k kvs = None /\ e = KeyError k.
Proof.
  induction keys as [|k' keys IH]; simpl; [discriminate|].
  destruct (dict_get k' kvs) eqn:Hk.
  - intros H. destruct (IH H) as (k & Hin & Hg & ->). eauto.
  - intros [= <-]. eauto.
Qed.

(** C6: an empty or absent raw value makes every handler return after one
    debug record: the slots, both heaps (so the running state of every task)
    and the loop are as before. *)
Theorem empty_config_changes_nothing (json_loads : string -> exn + value)
    (schedule_next : value -> option exn)
    (c : category) (new_conf : option string) (znode_stat : ZnodeStat) (w : World) :
  new_conf = None \/ new_conf = Some EmptyString ->
  let r := handler json_loads schedule_next c new_conf znode_stat w in
  snd r = Returned tt /\ only_logged LvlDebug (empty_msg c) w (fst r).
Proof.
  intros H. assert (py_not_str new_conf = true) as Hn by (destruct H as [-> | ->]; done).
  cbv zeta. rewrite handler_empty by done. split; [done | apply logged_only].
Qed.

(** C8: the wrapper built by the bridge appends exactly one call of the
    update function, with the two arguments it was given, to the callbacks of
    the loop; it leaves the manager, the heaps and the trace alone, so the
    update function is not run by the wrapper; the loop runs it later. *)
Theorem bridge_schedules_one_call :
  (forall (F : Type) (update_function : F) new_conf znode_stat (io : IOLoop F),
     bridge_to_ioloop update_function new_conf znode_stat io
     = mkIOLoop (callbacks io ++ [(update_function, new_conf, znode_stat)]) (futures io)) /\
  (forall json_loads schedule_next c new_conf znode_stat w,
     step json_loads schedule_next (Deliver c new_conf znode_stat) w
     = with_ioloop (mkIOLoop (callbacks (ioloop w) ++ [(c, new_conf, znode_stat)])
                             (futures (ioloop w))) w) /\
  (forall json_loads schedule_next c new_conf znode_stat m ls ts fs nf tr,
     let w := mkWorld m ls ts (mkIOLoop [] fs) nf tr in
     step json_loads schedule_next RunCallback (step json_loads schedule_next
         (Deliver c new_conf znode_stat) w)
     = guarded (handler json_loads schedule_next c new_conf znode_stat) w).
Proof. repeat split. Qed.

(** C10: a document that is a JSON object without "interval", or for
    processes and proxies without "detailed", makes the handler raise
    KeyError, whatever its "enabled" value; only the info record is added, so
    no task is stopped or started and the slots are as before. *)
Theorem missing_key_raises_KeyError (json_loads : string -> exn + value)
    (schedule_next : value -> option exn)
    (c : category) (raw : string) (znode_stat : ZnodeStat) (w : World)
    (kvs : list (string * value)) :
  raw <> EmptyString ->
  json_loads raw = inr (PyDict kvs) ->
  dict_get "interval" kvs = None \/ (c <> Nodes /\ dict_get "detailed" kvs = None) ->
  let r := handler json_loads schedule_next c (Some raw) znode_stat w in
  (exists k, In k (required_keys c) /\ dict_get k kvs = None /\
             snd r = Raised (KeyError k)) /\
  only_logged LvlInfo (info_msg c raw) w (fst r).
Proof.
  intros Hraw Hj Hmiss. cbv zeta.
  assert (exists e, first_error (required_keys c) (PyDict kvs) = Some e) as [e He].
  { destruct Hmiss as [Hi | [Hc Hd]].
    - apply (first_error_some _ _ "interval" (KeyError "interval")).
      + destruct c; simpl; auto.
      + simpl. by rewrite Hi.
    - apply (first_error_some _ _ "detailed" (KeyError "detailed")).
      + destruct c; simpl; auto; congruence.
      + simpl. by rewrite Hd. }
  rewrite (handler_key_error _ _ _ _ _ _ Hraw _ e Hj He).
  apply first_error_dict in He as (k & Hin & Hg & ->).
  split; [eauto | apply logged_only].
Qed.

Lemma first_error_first (keys : list string) (kvs : list (string * value)) (e : exn) :
  first_error keys (PyDict kvs) = Some e ->
  exists pre k post, keys = pre ++ k :: post /\
    (forall k', In k' pre -> dict_get k' kvs <> None) /\
    dict_get k kvs = None /\ e = KeyError k.
Proof.
  induction keys as [|k0 keys IH]; simpl; [discriminate|].
  destruct (dict_get k0 kvs) eqn:Hk.
  - intros H. destruct (IH H) as (pre & k & post & -> & Hpre & Hg & ->).
    exists (k0 :: pre), k, post. repeat split; [|done].
    intros k' [<- | Hin]; [congruence | by apply Hpre].
  - intros [= <-]. exists [], k0, keys. repeat split; [|done]. intros k' [].
Qed.

Lemma first_error_not_dict (keys : list string) (conf : value) (e : exn) :
  (forall kvs, conf <> PyDict kvs) ->
  first_error keys conf = Some e -> e = TypeError.
Proof.
  intros Hno. destruct keys as [|k keys]; simpl; [discriminate|].
  destruct conf; simpl; try (by intros [= <-]). by destruct (Hno kvs).
Qed.

(** C1, as the code has it: a malformed value makes the handler raise: the
    exception of the decoder when the value does not decode, KeyError on the
    first required key, in the order the handler reads them, that a decoded
    JSON object lacks, and TypeError when the decoded document is no object;
    only the info record is added, so the log and task references of the
    slot are as before. *)
Theorem malformed_config_raises (json_loads : string -> exn + value)
    (schedule_next : value -> option exn)
    (c : category) (raw : string) (znode_stat : ZnodeStat) (w : World) :
  malformed json_loads c raw ->
  let r := handler json_loads schedule_next c (Some raw) znode_stat w in
  (exists e, snd r = Raised e /\
     (forall e0, json_loads raw = inl e0 -> e = e0) /\
     (forall kvs, json_loads raw = inr (PyDict kvs) ->
        exists pre k post, required_keys c = pre ++ k :: post /\
          (forall k', In k' pre -> dict_get k' kvs <> None) /\
          dict_get k kvs = None /\ e = KeyError k) /\
     (forall conf, json_loads raw = inr conf ->
        (forall kvs, conf <> PyDict kvs) -> e = TypeError)) /\
  only_logged LvlInfo (info_msg c raw) w (fst r).
Proof.
  intros [Hraw Hbad]. cbv zeta.
  destruct Hbad as [[e0 Hj] | (conf & k & e & Hj & Hin & He)].
  - rewrite (handler_not_json _ _ _ _ _ _ Hraw e0 Hj). split; [|apply logged_only].
    exists e0. split; [done|]. repeat split; intros; congruence.
  - destruct (first_error_some _ _ _ _ Hin He) as [e' He'].
    rewrite (handler_key_error _ _ _ _ _ _ Hraw _ e' Hj He').
    split; [|apply logged_only]. exists e'. split; [done|].
    split; [congruence|]. split.
    + intros kvs Hk. rewrite Hj in Hk. injection Hk as ->.
      by apply first_error_first.
    + intros conf' Hk Hno. rewrite Hj in Hk. injection Hk as Hk. subst conf'.
      exact (first_error_not_dict (required_keys c) conf e' Hno He').
Qed.

Lemma reachable_Inv (json_loads : string -> exn + value)
    (schedule_next : value -> option exn) (w : World) :
  reachable json_loads schedule_next w -> Inv w.
Proof. intros [es ->]. apply Inv_run, Inv_initial. Qed.

Lemma tick_fetches_fresh (cl : closure) (w : World) :
  profiling_periodical_callback cl w
  = (with_ioloop (mkIOLoop (callbacks (ioloop w))
                           (futures (ioloop w) ++ [(next_future w, cl)]))
       (with_next_future (S (next_future w))
          (with_trace (Fetched (stats_source cl) 0 (next_future w) :: trace w) w)),
     Returned tt).
Proof. reflexivity. Qed.

(** C9: every fetch a run of the manager issues to a stats source asks for
    max_age = 0. *)
Theorem fetch_max_age_zero (json_loads : string -> exn + value)
    (schedule_next : value -> option exn) (es : list event)
    (src : category) (m : Z) (fut : nat) :
  In (Fetched src m fut) (trace (run json_loads schedule_next es initial_world)) -> m = 0.
Proof.
  apply (inv_max_age _ (Inv_run json_loads schedule_next es initial_world Inv_initial)).
Qed.

(** C4: in every run of the manager, at every moment of the trace, two
    active tasks (started and not stopped since) of one category are the
    same task. *)
Theorem at_most_one_active_task (json_loads : string -> exn + value)
    (schedule_next : value -> option exn)
    (es : list event) (tr' : list obs) (c : category) (t1 t2 : loc) :
  let w := run json_loads schedule_next es initial_world in
  tr' `suffix_of` trace w ->
  is_active tr' t1 = true -> is_active tr' t2 = true ->
  task_category w t1 = Some c -> task_category w t2 = Some c ->
  t1 = t2.
Proof.
  intros w Hsuf H1 H2 C1 C2.
  pose proof (Inv_run json_loads schedule_next es initial_world Inv_initial) as I. fold w in I.
  eapply (inv_history w I); eauto.
Qed.

(** In a reachable world the active tasks of the trace are the tasks marked
    running, so two running tasks of one category are the same task, the one
    the slot of the category holds. *)
Lemma running_task_is_slot (json_loads : string -> exn + value)
    (schedule_next : value -> option exn) (w : World)
    (c : category) (t : loc) :
  reachable json_loads schedule_next w ->
  task_category w t = Some c -> task_running w t = true ->
  is_active (trace w) t = true /\ task_slot c (self w) = Some t.
Proof.
  intros Hr Hc Hrun. pose proof (reachable_Inv _ _ _ Hr) as I.
  split; [by rewrite (inv_active w I)|].
  unfold task_category, task_running in *.
  destruct (tasks w !! t) as [pc|] eqn:Ht; [|discriminate].
  injection Hc as <-. by apply (inv_slot w I).
Qed.

Lemma ensure_log_id (c : category) (w : World) (l : loc) :
  log_slot c (self w) = Some l -> ensure_log c w = w.
Proof. intros H. unfold ensure_log. by rewrite H. Qed.

Lemma apply_detail_tasks (c : category) (d : value) (w : World) :
  tasks (apply_detail c d w) = tasks w.
Proof. unfold apply_detail. destruct c; try done; by destruct (log_slot _ (self w)). Qed.

Lemma apply_detail_trace (c : category) (d : value) (w : World) :
  trace (apply_detail c d w) = trace w.
Proof. unfold apply_detail. destruct c; try done; by destruct (log_slot _ (self w)). Qed.

Lemma apply_detail_length (c : category) (d : value) (w : World) :
  List.length (logs (apply_detail c d w)) = List.length (logs w).
Proof.
  unfold apply_detail. destruct c; try done;
    (destruct (log_slot _ (self w)); [simpl; by rewrite length_alter | done]).
Qed.

Lemma stop_slot_logs (c : category) (w : World) : logs (stop_slot c w) = logs w.
Proof. unfold stop_slot. by destruct (task_slot c (self w)). Qed.

Lemma clear_slot_task (c : category) (w : World) :
  task_slot c (self (clear_slot c w)) = None.
Proof.
  unfold clear_slot. destruct (task_slot c (self w)) eqn:H; [|done].
  simpl. rewrite task_slot_set_task. by rewrite decide_True.
Qed.

Lemma clear_slot_log (c c' : category) (w : World) :
  log_slot c' (self (clear_slot c w)) = log_slot c' (self w).
Proof.
  unfold clear_slot. destruct (task_slot c (self w)); [|done].
  simpl. by rewrite log_slot_set_task.
Qed.

Lemma clear_slot_logs (c : category) (w : World) : logs (clear_slot c w) = logs w.
Proof. unfold clear_slot. by destruct (task_slot c (self w)). Qed.

(** The world an update that enables leaves behind, whatever its outcome:
    the log of the slot and the log heap are those after the detail flag was
    assigned. *)
Lemma enabled_update_logs (schedule_next : value -> option exn) (c : category)
    (raw : string) (iv d : value) (w : World) :
  let w1 := apply_detail c d (ensure_log c (logged LvlInfo (info_msg c raw) w)) in
  let w' := fst (enabled_update schedule_next c raw iv d w) in
  logs w' = logs w1 /\ log_slot c (self w') = log_slot c (self w1).
Proof.
  cbv zeta. unfold enabled_update.
  destruct (py_mul_1000 iv) as [e|ct]; [|destruct (py_le_zero ct)]; simpl;
    rewrite ?log_slot_set_task, stop_slot_logs, stop_slot_self; done.
Qed.

(** The world and the outcome of an update that enables with an interval
    whose thousandfold the constructor accepts: the task is launched, and the
    outcome is that of its start. *)
Lemma enabling_accepted (json_loads : string -> exn + value)
    (schedule_next : value -> option exn) (c : category)
    (raw : string) (iv d ct : value) (znode_stat : ZnodeStat) (w : World) :
  enabling json_loads c raw iv d ->
  py_mul_1000 iv = inr ct -> py_le_zero ct = false ->
  handler json_loads schedule_next c (Some raw) znode_stat w
  = (launch c ct (stop_slot c (apply_detail c d
       (ensure_log c (logged LvlInfo (info_msg c raw) w)))),
     started schedule_next ct).
Proof.
  intros (Hraw & conf & en & Hj & Hr & Ht) Hm Hz.
  rewrite (handler_enabled _ _ _ _ _ _ Hraw conf en iv d Hj Hr Ht).
  unfold enabled_update. by rewrite Hm, Hz.
Qed.

(** The world an update that enables with a valid interval leaves behind. *)
Lemma enabling_valid (json_loads : string -> exn + value)
    (schedule_next : value -> option exn) (c : category)
    (raw : string) (iv d ct : value) (znode_stat : ZnodeStat) (w : World) :
  enabling json_loads c raw iv d -> valid_interval iv ct ->
  fst (handler json_loads schedule_next c (Some raw) znode_stat w)
  = launch c ct (stop_slot c (apply_detail c d
      (ensure_log c (logged LvlInfo (info_msg c raw) w)))).
Proof.
  intros He (Hm & Hz & _).
  by rewrite (enabling_accepted _ schedule_next _ _ _ _ ct znode_stat w He Hm Hz).
Qed.

Lemma disabling_result (json_loads : string -> exn + value)
    (schedule_next : value -> option exn) (c : category)
    (raw : string) (znode_stat : ZnodeStat) (w : World) :
  disabling json_loads c raw ->
  handler json_loads schedule_next c (Some raw) znode_stat w
  = (disabled_update c raw w, Returned tt).
Proof.
  intros (Hraw & conf & en & iv & d & Hj & Hr & Ht).
  by rewrite (handler_disabled _ _ _ _ _ _ Hraw conf en iv d Hj Hr Ht).
Qed.

(** C7: an update of the processes or proxies configuration that enables
    assigns the detail value of the document to the log of the slot, which
    is the log the slot already had when it had one; this holds whether or
    not the handler then succeeds in starting a task. *)
Theorem detailed_flag_follows_config (json_loads : string -> exn + value)
    (schedule_next : value -> option exn)
    (c : category) (raw : string) (iv d : value) (znode_stat : ZnodeStat) (w : World) :
  reachable json_loads schedule_next w ->
  c = Processes \/ c = Proxies ->
  enabling json_loads c raw iv d ->
  let w' := fst (handler json_loads schedule_next c (Some raw) znode_stat w) in
  exists l lg,
    log_slot c (self w') = Some l /\ logs w' !! l = Some lg /\
    write_detailed_stats lg = Some d /\
    (forall l0, log_slot c (self w) = Some l0 -> l0 = l).
Proof.
  intros Hreach Hc (Hraw & conf & en & Hj & Hr & Ht). cbv zeta.
  rewrite (handler_enabled _ _ _ _ _ _ Hraw conf en iv d Hj Hr Ht).
  destruct (enabled_update_logs schedule_next c raw iv d w) as [-> ->].
  set (w1 := ensure_log c (logged LvlInfo (info_msg c raw) w)).
  assert (Inv w1) as I1 by by apply Inv_ensure_log, Inv_logged, (reachable_Inv json_loads schedule_next).
  destruct (ensure_log_some c (logged LvlInfo (info_msg c raw) w)) as [l Hl].
  fold w1 in Hl. pose proof (inv_log_ref w1 I1 c l Hl) as Hcl.
  unfold log_class_at in Hcl. destruct (logs w1 !! l) as [lg0|] eqn:Hlg; [|discriminate].
  exists l, (set_detail d lg0). rewrite apply_detail_self.
  split; [exact Hl|]. split; [|split; [reflexivity|]].
  - unfold apply_detail.
    destruct Hc as [-> | ->]; rewrite Hl; simpl; by rewrite list_lookup_alter_eq, Hlg.
  - intros l0 Hl0. unfold w1 in Hl.
    rewrite (ensure_log_id c _ l0) in Hl by exact Hl0. simpl in Hl. congruence.
Qed.

Lemma stop_slot_some (c : category) (w : World) (t : loc) :
  task_slot c (self w) = Some t ->
  stop_slot c w = with_trace (Stopped t :: trace w)
                    (with_tasks (alter (set_running false) t (tasks w)) w).
Proof. intros H. unfold stop_slot. by rewrite H. Qed.

Lemma ensure_log_none (c : category) (w : World) :
  log_slot c (self w) = None ->
  log_slot c (self (ensure_log c w)) = Some (List.length (logs w)) /\
  List.length (logs (ensure_log c w)) = S (List.length (logs w)).
Proof.
  intros H. unfold ensure_log. rewrite H. simpl. split.
  - rewrite log_slot_set_log. by rewrite decide_True.
  - rewrite length_app. simpl. lia.
Qed.

Lemma launch_task (c : category) (ct : value) (w : World) :
  task_slot c (self (launch c ct w)) = Some (List.length (tasks w)) /\
  tasks (launch c ct w) !! List.length (tasks w)
  = Some (mkPeriodicCallback (mkClosure c (log_slot c (self w))) ct true).
Proof.
  unfold launch. simpl. split.
  - rewrite task_slot_set_task. by rewrite decide_True.
  - apply lookup_app_last.
Qed.

Lemma launch_log (c c' : category) (ct : value) (w : World) :
  log_slot c' (self (launch c ct w)) = log_slot c' (self w).
Proof. unfold launch. simpl. by rewrite log_slot_set_task. Qed.


(** C2, as the code has it: after an update that enables and creates the
    log, one that disables and one that enables again, the slot still holds
    the log created first, the task started last writes to it, and no other
    log was created. *)
Theorem log_reused_after_reenable (json_loads : string -> exn + value)
    (schedule_next : value -> option exn)
    (c : category) (raw1 raw2 raw3 : string) (iv1 d1 ct1 iv3 d3 ct3 : value)
    (znode_stat : ZnodeStat) (w : World) :
  log_slot c (self w) = None ->
  enabling json_loads c raw1 iv1 d1 -> valid_interval iv1 ct1 ->
  disabling json_loads c raw2 ->
  enabling json_loads c raw3 iv3 d3 -> valid_interval iv3 ct3 ->
  let w1 := fst (handler json_loads schedule_next c (Some raw1) znode_stat w) in
  let w2 := fst (handler json_loads schedule_next c (Some raw2) znode_stat w1) in
  let w3 := fst (handler json_loads schedule_next c (Some raw3) znode_stat w2) in
  let l := List.length (logs w) in
  log_slot c (self w1) = Some l /\ List.length (logs w1) = S l /\
  task_slot c (self w2) = None /\
  log_slot c (self w3) = Some l /\ List.length (logs w3) = S l /\
  exists t, task_slot c (self w3) = Some t /\
            tasks w3 !! t = Some (mkPeriodicCallback (mkClosure c (Some l)) ct3 true).
Proof.
  intros Hnone He1 Hv1 Hd2 He3 Hv3. cbv zeta.
  rewrite (enabling_valid _ schedule_next _ _ _ _ _ znode_stat w He1 Hv1).
  set (w1 := launch c ct1 _).
  destruct (ensure_log_none c (logged LvlInfo (info_msg c raw1) w) Hnone) as [Hs1 Hn1].
  assert (log_slot c (self w1) = Some (List.length (logs w))) as Hl1.
  { unfold w1. by rewrite launch_log, stop_slot_self, apply_detail_self. }
  assert (List.length (logs w1) = S (List.length (logs w))) as Hlen1.
  { unfold w1, launch. simpl. by rewrite stop_slot_logs, apply_detail_length. }
  rewrite (disabling_result _ schedule_next _ _ znode_stat w1 Hd2). cbn [fst].
  set (w2 := disabled_update c raw2 w1).
  assert (log_slot c (self w2) = Some (List.length (logs w))) as Hl2.
  { unfold w2, disabled_update. by rewrite clear_slot_log, stop_slot_self. }
  assert (List.length (logs w2) = S (List.length (logs w))) as Hlen2.
  { unfold w2, disabled_update. by rewrite clear_slot_logs, stop_slot_logs. }
  rewrite (enabling_valid _ schedule_next _ _ _ _ _ znode_stat w2 He3 Hv3).
  rewrite (ensure_log_id c (logged LvlInfo (info_msg c raw3) w2) _ Hl2).
  set (w3 := stop_slot c _).
  assert (log_slot c (self w3) = Some (List.length (logs w))) as Hl3.
  { unfold w3. by rewrite stop_slot_self, apply_detail_self. }
  split; [exact Hl1|]. split; [exact Hlen1|].
  split; [apply clear_slot_task|].
  split; [by rewrite launch_log|]. split.
  { unfold launch, w3. simpl. by rewrite stop_slot_logs, apply_detail_length. }
  exists (List.length (tasks w3)). destruct (launch_task c ct3 w3) as [Hs Hn].
  by rewrite Hl3 in Hn.
Qed.
Section Ticks.

Variable json_loads : string -> exn + value.
Variable schedule_next : value -> option exn.
Variable c : category.

Lemma tick_step (e : event) (w : World) :
  no_update e -> Inv w -> quiet c w ->
  let w' := step json_loads schedule_next e w in
  quiet c w' /\ logs w' = logs w /\
  (no_fetch_in_flight c w -> no_fetch_in_flight c w') /\
  exists k, trace w' = k ++ trace w /\ quiet_gain c w k.
Proof.
  intros Hn I Q. cbv zeta.
  assert (quiet_gain c w []) as Hnil by (split; [intros m fut [] | intros _ l s []]).
  destruct e as [c0 nc zs | | t | fut res]; [| destruct Hn | |]; simpl.
  - repeat split; try done. by exists [].
  - destruct (tasks w !! t) as [pc|] eqn:Ht; [|repeat split; try done; by exists []].
    destruct (_running pc) eqn:Hr; [|repeat split; try done; by exists []].
    assert (stats_source (callback pc) <> c) as Hsrc.
    { intros Hc. specialize (Q t pc Ht Hc). congruence. }
    unfold guarded. rewrite tick_fetches_fresh. simpl.
    split; [exact Q|]. split; [done|]. split.
    + intros NF f cl Hin. apply in_app_or in Hin as [Hin | [[= <- <-] | []]]; eauto.
    + exists [Fetched (stats_source (callback pc)) 0 (next_future w)].
      split; [done|]. split.
      * intros m fut [[= E _ _] | []]. congruence.
      * intros _ l s [? | []]. discriminate.
  - destruct (take_future fut (futures (ioloop w))) as [[cl rest]|] eqn:Hf;
      [|repeat split; try done; by exists []].
    apply take_future_In in Hf as [Hcl Hsub].
    assert (forall w0 : World, tasks w0 = tasks w -> quiet c w0) as Qt.
    { intros w0 E t pc Ht. rewrite E in Ht. by apply (Q t pc). }
    assert (forall w0 : World, futures (ioloop w0) = rest ->
              no_fetch_in_flight c w -> no_fetch_in_flight c w0) as NFr.
    { intros w0 E NF f cl0 Hin. rewrite E in Hin. eapply NF, Hsub, Hin. }
    assert (forall lvl msg, quiet_gain c w [Logged lvl msg]) as Hlog.
    { intros lvl msg. split; [intros m f [? | []]; discriminate |
                              intros _ l s [? | []]; discriminate]. }
    unfold guarded, write_stats_callback, bind, lift.
    destruct res as [ex|[stats fl]]; simpl.
    { split; [by apply Qt|]. split; [done|]. split; [by apply NFr|].
      eexists [_]. split; [reflexivity | apply Hlog]. }
    destruct (profiler cl) as [l|] eqn:Hp; simpl.
    2: { split; [by apply Qt|]. split; [done|]. split; [by apply NFr|].
         eexists [_]. split; [reflexivity | apply Hlog]. }
    split; [by apply Qt|]. split; [done|]. split; [by apply NFr|].
    exists [Written l stats]. split; [done|]. split.
    + intros m f [? | []]. discriminate.
    + intros NF l' s [[= <- <-] | []].
      destruct (inv_future w I fut cl Hcl) as (l0 & Hp0 & Hc0).
      rewrite Hp in Hp0. injection Hp0 as <-. rewrite Hc0.
      intros [= E]. exact (NF fut cl Hcl E).
Qed.

Lemma ticks_run (es : list event) (w : World) :
  Forall no_update es -> Inv w -> quiet c w ->
  exists k, trace (run json_loads schedule_next es w) = k ++ trace w /\ quiet_gain c w k.
Proof.
  intros Hes. revert w. induction Hes as [|e es He Hes IH]; intros w I Q; simpl.
  - exists []. split; [done|]. split; [intros m fut [] | intros _ l s []].
  - destruct (tick_step e w He I Q) as (Q1 & Hlogs & NF1 & k1 & Htr1 & G1 & W1).
    destruct (IH (step json_loads schedule_next e w) (Inv_step json_loads schedule_next e w I) Q1)
      as (k2 & Htr2 & G2 & W2).
    exists (k2 ++ k1). split; [by rewrite Htr2, Htr1, app_assoc|]. split.
    + intros m fut Hin. apply in_app_or in Hin as [Hin | Hin];
        [by eapply G2 | by eapply G1].
    + intros NF l s Hin. apply in_app_or in Hin as [Hin | Hin].
      * specialize (W2 (NF1 NF) l s Hin). unfold log_class_at in *.
        by rewrite Hlogs in W2.
      * exact (W1 NF l s Hin).
Qed.

End Ticks.

(** C3, as the code has it: an update that disables, with every required
    key in the document, stops the running task of the slot and clears the
    task reference; while no further update runs, no fetch is issued for the
    category, and no write reaches a log of the category unless a fetch was
    in flight when the task was stopped. *)
Theorem disable_stops_task (json_loads : string -> exn + value)
    (schedule_next : value -> option exn) (c : category)
    (raw : string) (znode_stat : ZnodeStat) (w : World) (t : loc) (es : list event) :
  reachable json_loads schedule_next w ->
  disabling json_loads c raw ->
  task_slot c (self w) = Some t ->
  task_running w t = true ->
  Forall no_update es ->
  let r := handler json_loads schedule_next c (Some raw) znode_stat w in
  let w' := fst r in
  snd r = Returned tt /\
  task_running w' t = false /\
  task_slot c (self w') = None /\
  trace w' = Stopped t :: Logged LvlInfo (info_msg c raw) :: trace w /\
  exists k, trace (run json_loads schedule_next es w') = k ++ trace w' /\
            (forall m fut, ~ In (Fetched c m fut) k) /\
            (no_fetch_in_flight c w' ->
             forall l s, In (Written l s) k -> log_class_at w' l <> Some c).
Proof.
  intros Hreach Hd Ht Hrun Hes. cbv zeta.
  rewrite (disabling_result _ schedule_next _ _ znode_stat w Hd). cbn [fst snd].
  pose proof (reachable_Inv _ _ _ Hreach) as I.
  set (w0 := logged LvlInfo (info_msg c raw) w).
  assert (Inv w0) as I0 by by apply Inv_logged.
  assert (Inv (disabled_update c raw w)) as I' by by apply Inv_disabled_update.
  assert (quiet c (disabled_update c raw w)) as Q'.
  { intros t0 pc Ht0. unfold disabled_update, clear_slot in Ht0. fold w0 in Ht0.
    apply (quiet_stop_slot c w0 I0 t0 pc).
    by destruct (task_slot c (self (stop_slot c w0))). }
  split; [done|]. repeat split.
  - unfold disabled_update, clear_slot. fold w0. rewrite stop_slot_self.
    replace (task_slot c (self w0)) with (Some t) by done.
    rewrite (stop_slot_some c w0 t) by done.
    unfold task_running. simpl. rewrite list_lookup_alter_eq.
    by destruct (tasks w !! t).
  - apply clear_slot_task.
  - unfold disabled_update, clear_slot. fold w0. rewrite stop_slot_self.
    replace (task_slot c (self w0)) with (Some t) by done.
    by rewrite (stop_slot_some c w0 t) by done.
  - destruct (ticks_run json_loads schedule_next c es _ Hes I' Q') as (k & Hk & G & W). eauto.
Qed.

(** ** The properties at concrete inputs *)

Lemma conf_on_enabling (c : category) :
  enabling JsonRef.json_loads c conf_on (PyInt 5) (PyBool false).
Proof.
  split; [discriminate|].
  exists (PyDict [("detailed", PyBool false); ("interval", PyInt 5);
                  ("enabled", PyBool true)]), (PyBool true).
  by repeat split.
Qed.

Lemma conf_on_detailed_enabling (c : category) :
  enabling JsonRef.json_loads c conf_on_detailed (PyInt 10) (PyBool true).
Proof.
  split; [discriminate|].
  exists (PyDict [("detailed", PyBool true); ("interval", PyInt 10);
                  ("enabled", PyBool true)]), (PyBool true).
  by repeat split.
Qed.

Lemma conf_off_disabling (c : category) : disabling JsonRef.json_loads c conf_off.
Proof.
  split; [discriminate|].
  exists (PyDict [("detailed", PyBool false); ("interval", PyInt 5);
                  ("enabled", PyBool false)]), (PyBool false), (PyInt 5), (PyBool false).
  by repeat split.
Qed.

Lemma world_on_reachable (c : category) : reachable JsonRef.json_loads TornadoRef.schedule_next
    (world_on c).
Proof. by eexists. Qed.

Lemma valid_interval_int (z : Z) : 0 < z -> valid_interval (PyInt z) (PyInt (z * 1000)).
Proof. intros H. repeat split. simpl. apply Z.leb_gt. lia. Qed.

(** The scenario of the specification for processes: enabled with detail
    off, then enabled with detail on, then sent the bare disabled document. *)
Example scenario_processes :
  let h raw w := handler JsonRef.json_loads TornadoRef.schedule_next Processes (Some raw) None w in
  let w1 := fst (h conf_on initial_world) in
  let w2 := fst (h conf_on_detailed w1) in
  let r3 := h conf_only_disabled w2 in
  (task_slot Processes (self w1) = Some 0%nat /\ task_running w1 0 = true /\
   (write_detailed_stats <$> logs w1 !! 0%nat) = Some (Some (PyBool false))) /\
  (task_slot Processes (self w2) = Some 1%nat /\ task_running w2 0 = false /\
   task_running w2 1 = true /\ log_slot Processes (self w2) = Some 0%nat /\
   (write_detailed_stats <$> logs w2 !! 0%nat) = Some (Some (PyBool true))) /\
  (snd r3 = Raised (KeyError "interval") /\ task_running (fst r3) 1 = true /\
   task_slot Processes (self (fst r3)) = Some 1%nat).
Proof. vm_compute. by repeat split. Qed.

(** A fetch in flight when its task is stopped is still written when it
    completes. *)
Example write_after_stop_in_flight :
  trace (run JsonRef.json_loads TornadoRef.schedule_next
           [Deliver Nodes (Some conf_on) None; RunCallback; Fire 0;
            Deliver Nodes (Some conf_off) None; RunCallback;
            Resolve 0 (inr (Snapshot 7, []))] initial_world)
  = [Written 0 (Snapshot 7); Stopped 0;
     Logged LvlInfo (info_msg Nodes conf_off);
     Fetched Nodes 0 0; Started 0;
     Logged LvlInfo (info_msg Nodes conf_on)].
Proof. vm_compute. reflexivity. Qed.

(** C1 fails as stated: text that is not JSON, and a JSON object without
    its required keys, both make the handler raise. *)
Lemma malformed_config_is_raised :
  (malformed JsonRef.json_loads Nodes conf_not_json /\
   ~ rejected_silently JsonRef.json_loads TornadoRef.schedule_next
       Nodes conf_not_json None initial_world) /\
  (malformed JsonRef.json_loads Processes conf_only_disabled /\
   ~ rejected_silently JsonRef.json_loads TornadoRef.schedule_next Processes conf_only_disabled None
       (world_on Processes)).
Proof.
  split; split.
  - split; [discriminate | left; by exists ValueError].
  - intros [H _]. vm_compute in H. discriminate.
  - split; [discriminate | right].
    exists (PyDict [("enabled", PyBool false)]), "interval", (KeyError "interval").
    repeat split. simpl. auto.
  - intros [H _]. vm_compute in H. discriminate.
Qed.

Lemma malformed_config_raises_witness :
  (malformed JsonRef.json_loads Nodes conf_not_json /\
   snd (handler JsonRef.json_loads TornadoRef.schedule_next Nodes (Some conf_not_json)
          None initial_world) = Raised ValueError) /\
  (malformed JsonRef.json_loads Processes conf_only_disabled /\
   snd (handler JsonRef.json_loads TornadoRef.schedule_next Processes
          (Some conf_only_disabled) None (world_on Processes))
   = Raised (KeyError "interval")).
Proof.
  assert (malformed JsonRef.json_loads Nodes conf_not_json) as Hm
    by (split; [discriminate | left; by exists ValueError]).
  assert (malformed JsonRef.json_loads Processes conf_only_disabled) as Hm'.
  { split; [discriminate | right].
    exists (PyDict [("enabled", PyBool false)]), "interval", (KeyError "interval").
    repeat split. simpl. auto. }
  split; (split; [done|]).
  - destruct (malformed_config_raises JsonRef.json_loads TornadoRef.schedule_next
                Nodes conf_not_json None initial_world Hm) as [(e & He & Hv & _) _].
    rewrite He. f_equal. by apply Hv.
  - destruct (malformed_config_raises JsonRef.json_loads TornadoRef.schedule_next
                Processes conf_only_disabled None (world_on Processes) Hm')
      as [(e & He & _ & Hk & _) _].
    rewrite He. f_equal.
    destruct (Hk [("enabled", PyBool false)] eq_refl)
      as (pre & k & post & Hkeys & Hpre & Hg & ->).
    destruct pre as [|k1 pre]; simpl in Hkeys.
    { injection Hkeys as <- _. discriminate Hg. }
    injection Hkeys as <- Hkeys.
    destruct pre as [|k2 pre]; simpl in Hkeys.
    { by injection Hkeys as <- _. }
    injection Hkeys as <- Hkeys.
    by destruct (Hpre "interval" (or_intror (or_introl eq_refl))).
Defined.

(** C2 fails as stated: the task started after a disable writes to the log
    created when the category was first enabled. *)
Lemma log_is_reused :
  log_slot Nodes (self (world_on Nodes)) = Some 0%nat /\
  ~ fresh_log_after_reenable JsonRef.json_loads TornadoRef.schedule_next
      Nodes conf_off conf_on_detailed
      (world_on Nodes).
Proof.
  split; [reflexivity|]. intros H.
  refine (H 0%nat 1%nat (mkPeriodicCallback (mkClosure Nodes (Some 0%nat))
                           (PyInt 10000) true) _ _ _ _); by vm_compute.
Qed.

Lemma log_reused_after_reenable_witness :
  log_slot Nodes (self initial_world) = None /\
  let w1 := fst (handler JsonRef.json_loads TornadoRef.schedule_next
      Nodes (Some conf_on) None initial_world) in
  let w2 := fst (handler JsonRef.json_loads TornadoRef.schedule_next
      Nodes (Some conf_off) None w1) in
  let w3 := fst (handler JsonRef.json_loads TornadoRef.schedule_next
      Nodes (Some conf_on_detailed) None w2) in
  log_slot Nodes (self w1) = Some 0%nat /\ log_slot Nodes (self w3) = Some 0%nat /\
  List.length (logs w3) = 1%nat.
Proof.
  split; [reflexivity|].
  destruct (log_reused_after_reenable JsonRef.json_loads TornadoRef.schedule_next Nodes
              conf_on conf_off conf_on_detailed
              (PyInt 5) (PyBool false) (PyInt (5 * 1000))
              (PyInt 10) (PyBool true) (PyInt (10 * 1000)) None initial_world
              eq_refl (conf_on_enabling Nodes) (valid_interval_int 5 eq_refl)
              (conf_off_disabling Nodes)
              (conf_on_detailed_enabling Nodes) (valid_interval_int 10 eq_refl))
    as (H1 & _ & _ & H3 & H4 & _).
  exact (conj H1 (conj H3 H4)).
Defined.

(** C3 fails as stated: the bare disabled document lacks "interval", so the
    processes handler raises before it reaches the stop, and the task of the
    slot stays running. *)
Lemma bare_disabled_document_stops_nothing :
  task_slot Processes (self (world_on Processes)) = Some 0%nat /\
  task_running (world_on Processes) 0 = true /\
  snd (handler JsonRef.json_loads TornadoRef.schedule_next Processes (Some conf_only_disabled) None
         (world_on Processes)) = Raised (KeyError "interval") /\
  ~ stops_running_task JsonRef.json_loads TornadoRef.schedule_next Processes conf_only_disabled
      (world_on Processes).
Proof.
  repeat split. intros H.
  destruct (H 0%nat eq_refl eq_refl) as [Hrun _]. vm_compute in Hrun. discriminate.
Qed.

Lemma disable_stops_task_witness :
  (reachable JsonRef.json_loads TornadoRef.schedule_next (world_on Processes) /\
   disabling JsonRef.json_loads Processes conf_off /\
   task_slot Processes (self (world_on Processes)) = Some 0%nat /\
   task_running (world_on Processes) 0 = true /\
   Forall no_update [Fire 0; Fire 0]) /\
  let w' := fst (handler JsonRef.json_loads TornadoRef.schedule_next Processes (Some conf_off) None
                   (world_on Processes)) in
  task_running w' 0 = false /\ task_slot Processes (self w') = None.
Proof.
  assert (Forall no_update [Fire 0; Fire 0]) as Hes by (repeat constructor).
  split.
  { split; [apply world_on_reachable|]. split; [apply conf_off_disabling|].
    split; [reflexivity|]. split; [reflexivity | exact Hes]. }
  destruct (disable_stops_task JsonRef.json_loads TornadoRef.schedule_next Processes conf_off None
              (world_on Processes) 0%nat [Fire 0; Fire 0]
              (world_on_reachable Processes) (conf_off_disabling Processes)
              eq_refl eq_refl Hes) as (_ & H2 & H3 & _).
  exact (conj H2 H3).
Defined.

Lemma at_most_one_active_task_witness :
  let w := run JsonRef.json_loads TornadoRef.schedule_next
             [Deliver Processes (Some conf_on) None; RunCallback;
              Deliver Processes (Some conf_on_detailed) None; RunCallback]
             initial_world in
  (trace w `suffix_of` trace w /\ is_active (trace w) 1 = true /\
   task_category w 1 = Some Processes) /\ 1%nat = 1%nat.
Proof.
  cbv zeta. split; [by repeat split|].
  exact (at_most_one_active_task JsonRef.json_loads TornadoRef.schedule_next
           [Deliver Processes (Some conf_on) None; RunCallback;
            Deliver Processes (Some conf_on_detailed) None; RunCallback]
           _ Processes 1%nat 1%nat (reflexivity _) eq_refl eq_refl eq_refl eq_refl).
Defined.


(** With an interval no float can hold, the new task is built, stored and
    marked running, and its start raises OverflowError. *)
Example huge_interval_raises_OverflowError :
  let r := handler JsonRef.json_loads TornadoRef.schedule_next Processes
             (Some conf_huge_interval) None (world_on Processes) in
  snd r = Raised OverflowError /\
  task_running (fst r) 0 = false /\
  task_slot Processes (self (fst r)) = Some 1%nat /\
  task_running (fst r) 1 = true.
Proof. by vm_compute. Qed.


Lemma empty_config_changes_nothing_witness :
  (@None string = None \/ @None string = Some EmptyString) /\
  snd (handler JsonRef.json_loads TornadoRef.schedule_next
      Proxies None None (world_on Proxies)) = Returned tt /\
  only_logged LvlDebug (empty_msg Proxies) (world_on Proxies)
    (fst (handler JsonRef.json_loads TornadoRef.schedule_next
        Proxies None None (world_on Proxies))).
Proof.
  split; [by left|].
  exact (empty_config_changes_nothing JsonRef.json_loads TornadoRef.schedule_next Proxies None None
           (world_on Proxies) (or_introl eq_refl)).
Defined.

Lemma detailed_flag_follows_config_witness :
  (reachable JsonRef.json_loads TornadoRef.schedule_next (world_on Proxies) /\
   (Proxies = Processes \/ Proxies = Proxies) /\
   enabling JsonRef.json_loads Proxies conf_on_detailed (PyInt 10) (PyBool true)) /\
  let w' := fst (handler JsonRef.json_loads TornadoRef.schedule_next
      Proxies (Some conf_on_detailed) None
                   (world_on Proxies)) in
  exists l lg,
    log_slot Proxies (self w') = Some l /\ logs w' !! l = Some lg /\
    write_detailed_stats lg = Some (PyBool true) /\
    (forall l0, log_slot Proxies (self (world_on Proxies)) = Some l0 -> l0 = l).
Proof.
  split.
  { split; [apply world_on_reachable|]. split; [by right|].
    apply conf_on_detailed_enabling. }
  exact (detailed_flag_follows_config JsonRef.json_loads TornadoRef.schedule_next
      Proxies conf_on_detailed
           (PyInt 10) (PyBool true) None (world_on Proxies)
           (world_on_reachable Proxies) (or_intror eq_refl)
           (conf_on_detailed_enabling Proxies)).
Defined.

Lemma fetch_max_age_zero_witness :
  In (Fetched Nodes 0 0)
     (trace (run JsonRef.json_loads TornadoRef.schedule_next
               [Deliver Nodes (Some conf_on) None; RunCallback; Fire 0]
               initial_world)) /\ (0 = 0)%Z.
Proof.
  assert (In (Fetched Nodes 0 0)
            (trace (run JsonRef.json_loads TornadoRef.schedule_next
                      [Deliver Nodes (Some conf_on) None; RunCallback; Fire 0]
                      initial_world))) as Hin by (by left).
  exact (conj Hin (fetch_max_age_zero JsonRef.json_loads TornadoRef.schedule_next
      _ Nodes 0 0%nat Hin)).
Defined.

Lemma missing_key_raises_KeyError_witness :
  (conf_only_disabled <> EmptyString /\
   JsonRef.json_loads conf_only_disabled = inr (PyDict [("enabled", PyBool false)]) /\
   (dict_get "interval" [("enabled", PyBool false)] = None \/
    (Processes <> Nodes /\ dict_get "detailed" [("enabled", PyBool false)] = None))) /\
  let r := handler JsonRef.json_loads TornadoRef.schedule_next
      Processes (Some conf_only_disabled) None
             (world_on Processes) in
  (exists k, In k (required_keys Processes) /\
             dict_get k [("enabled", PyBool false)] = None /\
             snd r = Raised (KeyError k)) /\
  only_logged LvlInfo (info_msg Processes conf_only_disabled) (world_on Processes) (fst r).
Proof.
  assert (conf_only_disabled <> EmptyString) as Hne by discriminate.
  split; [split; [exact Hne | split; [reflexivity | by left]]|].
  exact (missing_key_raises_KeyError JsonRef.json_loads TornadoRef.schedule_next
      Processes conf_only_disabled
           None (world_on Processes) [("enabled", PyBool false)] Hne eq_refl
           (or_introl eq_refl)).
Defined.

(** * Further properties *)

Lemma moves_trans (c : category) (w1 w2 w3 : World) :
  moves c w1 w2 -> moves c w2 w3 -> moves c w1 w3.
Proof. induction 1; [done|]. intros H3. eapply ms_next; eauto. Qed.

Lemma moves_one (c : category) (w w' : World) : Inv w -> move c w w' -> moves c w w'.
Proof. intros I Hm. eapply ms_next; [exact I | exact Hm | apply ms_done]. Qed.

Lemma move_Inv (c : category) (w w' : World) : Inv w -> move c w w' -> Inv w'.
Proof.
  intros I [lvl msg | | d | | Q | ct Q S].
  - by apply Inv_logged.
  - by apply Inv_ensure_log.
  - by apply Inv_apply_detail.
  - by apply Inv_stop_slot.
  - by apply Inv_clear_slot.
  - by apply Inv_launch.
Qed.

Lemma moves_Inv (c : category) (w w' : World) : Inv w -> moves c w w' -> Inv w'.
Proof. intros I H. induction H; [done|]. eauto using move_Inv. Qed.

(** A property kept by every change is kept by a sequence of changes. *)
Lemma moves_keep (P : World -> Prop) (c : category) :
  (forall w w', Inv w -> P w -> move c w w' -> P w') ->
  forall w w', moves c w w' -> P w -> P w'.
Proof. intros Hstep w w' H. induction H; eauto. Qed.

(** A preorder that holds across every change holds across a sequence. *)
Lemma moves_rel (R : World -> World -> Prop) (c : category) :
  (forall w, R w w) ->
  (forall w1 w2 w3, R w1 w2 -> R w2 w3 -> R w1 w3) ->
  (forall w w', Inv w -> move c w w' -> R w w') ->
  forall w w', moves c w w' -> R w w'.
Proof. intros Hr Ht Hstep w w' H. induction H; eauto. Qed.

Lemma moves_disabled (c : category) (raw : string) (w : World) :
  Inv w -> moves c w (disabled_update c raw w).
Proof.
  intros I. unfold disabled_update.
  set (w1 := logged LvlInfo (info_msg c raw) w).
  assert (Inv w1) as I1 by by apply Inv_logged.
  eapply ms_next; [exact I | apply mv_logged |]. fold w1.
  eapply ms_next; [exact I1 | apply mv_stop |].
  apply moves_one; [by apply Inv_stop_slot | apply mv_clear, quiet_stop_slot, I1].
Qed.

Lemma moves_enabled (schedule_next : value -> option exn) (c : category)
    (raw : string) (iv d : value) (w : World) :
  Inv w -> moves c w (fst (enabled_update schedule_next c raw iv d w)).
Proof.
  intros I. unfold enabled_update.
  set (w0 := logged LvlInfo (info_msg c raw) w).
  set (w1 := ensure_log c w0). set (w2 := apply_detail c d w1).
  assert (Inv w0) as I0 by by apply Inv_logged.
  assert (Inv w1) as I1 by by apply Inv_ensure_log.
  assert (Inv w2) as I2 by by apply Inv_apply_detail.
  assert (Inv (stop_slot c w2)) as I3 by by apply Inv_stop_slot.
  assert (moves c w (stop_slot c w2)) as Hm.
  { eapply ms_next; [exact I | apply mv_logged |]. fold w0.
    eapply ms_next; [exact I0 | apply mv_ensure |]. fold w1.
    eapply ms_next; [exact I1 | apply mv_detail |]. fold w2.
    apply moves_one; [exact I2 | apply mv_stop]. }
  destruct (py_mul_1000 iv) as [e|ct]; [exact Hm|].
  destruct (py_le_zero ct); [exact Hm|]. simpl.
  eapply moves_trans; [exact Hm|]. apply moves_one; [exact I3|].
  apply mv_launch; [by apply quiet_stop_slot|].
  rewrite stop_slot_self. unfold w2. rewrite apply_detail_self. apply ensure_log_some.
Qed.

Lemma moves_handler (json_loads : string -> exn + value)
    (schedule_next : value -> option exn) (c : category)
    (new_conf : option string) (znode_stat : ZnodeStat) (w : World) :
  Inv w -> moves c w (fst (handler json_loads schedule_next c new_conf znode_stat w)).
Proof.
  intros I. destruct (py_not_str new_conf) eqn:Hn.
  { rewrite handler_empty by done. apply moves_one; [done | apply mv_logged]. }
  destruct new_conf as [raw|]; [|discriminate].
  assert (raw <> EmptyString) as Hraw by (intros ->; discriminate).
  destruct (json_loads raw) as [e0|conf] eqn:Hj.
  { rewrite (handler_not_json _ _ _ _ _ _ Hraw e0) by done. apply moves_one; [done | apply mv_logged]. }
  destruct (first_error (required_keys c) conf) as [e|] eqn:He.
  { rewrite (handler_key_error _ _ _ _ _ _ Hraw conf e) by done.
    apply moves_one; [done | apply mv_logged]. }
  apply first_error_none in He as (en & iv & d & Hr).
  destruct (py_truthy en) eqn:Ht.
  - rewrite (handler_enabled _ _ _ _ _ _ Hraw conf en iv d) by done.
    by apply moves_enabled.
  - rewrite (handler_disabled _ _ _ _ _ _ Hraw conf en iv d) by done.
    by apply moves_disabled.
Qed.

Lemma moves_guarded (json_loads : string -> exn + value)
    (schedule_next : value -> option exn) (c : category)
    (new_conf : option string) (znode_stat : ZnodeStat) (w : World) :
  Inv w -> moves c w (guarded (handler json_loads schedule_next c new_conf znode_stat) w).
Proof.
  intros I. pose proof (moves_handler json_loads schedule_next c new_conf znode_stat w I) as Hm.
  unfold guarded. destruct (handler json_loads schedule_next
      c new_conf znode_stat w) as [w' [[]|e]];
    simpl in Hm; [exact Hm|].
  eapply moves_trans; [exact Hm|].
  apply moves_one; [by eapply moves_Inv | apply (mv_logged c w' LvlError)].
Qed.

Lemma starts_In (tr : list obs) (t : loc) : In t (starts tr) <-> In (Started t) tr.
Proof.
  induction tr as [|o tr IH]; simpl; [tauto|].
  destruct o; simpl; rewrite ?IH; intuition congruence.
Qed.

Lemma stops_follow_starts_cons (o : obs) (tr : list obs) :
  stops_follow_starts tr ->
  (forall t, o = Stopped t -> In (Started t) tr) ->
  stops_follow_starts (o :: tr).
Proof.
  intros Hold Ho k t tr' E. destruct k as [|o' k]; simpl in E.
  - injection E as -> ->. by apply Ho.
  - injection E as -> E. by apply (Hold k t tr').
Qed.

(** An observation that is neither a start nor a stop, a fetch nor a write. *)
Lemma Inv2_logged (lvl : level) (msg : string) (w : World) :
  Inv2 w -> Inv2 (logged lvl msg w).
Proof.
  intros [A B C D E]. constructor; try assumption.
  - intros c t Hs. right. by apply (C c).
  - apply stops_follow_starts_cons; [exact D | discriminate].
Qed.

Lemma Inv2_ensure_log (c : category) (w : World) : Inv2 w -> Inv2 (ensure_log c w).
Proof.
  intros I2. unfold ensure_log. destruct (log_slot c (self w)) eqn:Hs; [assumption|].
  destruct I2 as [A B C D E]. constructor; simpl; try assumption.
  - intros l lg Hl. rewrite log_slot_set_log.
    destruct (decide (l = List.length (logs w))) as [->|Hne].
    + rewrite lookup_app_last in Hl. injection Hl as <-. simpl. by rewrite decide_True.
    + rewrite lookup_app_single_ne in Hl by done.
      pose proof (A l lg Hl) as Ho. case_decide as Hc; [congruence | exact Ho].
  - intros c' t. rewrite task_slot_set_log. apply C.
Qed.

Lemma Inv2_alter_detail (d : value) (l0 : loc) (w : World) :
  Inv2 w -> Inv2 (with_logs (alter (set_detail d) l0 (logs w)) w).
Proof.
  intros [A B C D E]. constructor; simpl; try assumption.
  intros l lg. destruct (decide (l0 = l)) as [->|Hne].
  - rewrite list_lookup_alter_eq. destruct (logs w !! l) as [lg0|] eqn:Hl; [|discriminate].
    intros [= <-]. simpl. by apply A.
  - rewrite list_lookup_alter_ne by done. apply A.
Qed.

Lemma Inv2_apply_detail (c : category) (d : value) (w : World) :
  Inv2 w -> Inv2 (apply_detail c d w).
Proof.
  intros I2. unfold apply_detail.
  destruct c; [assumption | |];
    (destruct (log_slot _ (self w)); [by apply Inv2_alter_detail | assumption]).
Qed.

Lemma Inv2_stop_slot (c : category) (w : World) : Inv2 w -> Inv2 (stop_slot c w).
Proof.
  intros I2. unfold stop_slot.
  destruct (task_slot c (self w)) as [t0|] eqn:Hs; [|assumption].
  destruct I2 as [A B C D E]. constructor; simpl; try assumption.
  - intros c' t Ht. right. by apply (C c').
  - apply stops_follow_starts_cons; [exact D|]. intros t [= <-]. by apply (C c).
Qed.

Lemma Inv2_clear_slot (c : category) (w : World) : Inv2 w -> Inv2 (clear_slot c w).
Proof.
  intros I2. unfold clear_slot.
  destruct (task_slot c (self w)) as [t0|] eqn:Hs; [|assumption].
  destruct I2 as [A B C D E]. constructor; simpl; try assumption.
  - intros l lg Hl. rewrite log_slot_set_task. by apply A.
  - intros c' t. rewrite task_slot_set_task. case_decide; [discriminate | apply C].
Qed.

Lemma Inv2_launch (c : category) (ct : value) (w : World) :
  Inv w -> Inv2 w -> Inv2 (launch c ct w).
Proof.
  intros I [A B C D E]. unfold launch. constructor; simpl; try assumption.
  - intros l lg Hl. rewrite log_slot_set_task. by apply A.
  - constructor; [|exact B]. rewrite list_elem_of_In, starts_In. intros Hin.
    pose proof (inv_started w I _ Hin). lia.
  - intros c' t. rewrite task_slot_set_task. case_decide.
    + intros [= <-]. by left.
    + intros Hs. right. by apply (C c').
  - apply stops_follow_starts_cons; [exact D | discriminate].
Qed.

Lemma move_Inv2 (c : category) (w w' : World) : Inv w -> Inv2 w -> move c w w' -> Inv2 w'.
Proof.
  intros I I2 [lvl msg | | d | | Q | ct Q S].
  - by apply Inv2_logged.
  - by apply Inv2_ensure_log.
  - by apply Inv2_apply_detail.
  - by apply Inv2_stop_slot.
  - by apply Inv2_clear_slot.
  - by apply Inv2_launch.
Qed.

Lemma take_future_length (fut : nat) (fs rest : list (nat * closure)) (cl : closure) :
  take_future fut fs = Some (cl, rest) -> List.length fs = S (List.length rest).
Proof.
  revert rest. induction fs as [|[f cl'] fs IH]; intros rest; simpl; [discriminate|].
  destruct (Nat.eqb f fut).
  - by intros [= -> ->].
  - destruct (take_future fut fs) as [[cl0 rest0]|]; [|discriminate].
    intros [= -> <-]. simpl. by rewrite (IH rest0).
Qed.

Section Preservation2.

Variable json_loads : string -> exn + value.
Variable schedule_next : value -> option exn.

Lemma Inv2_step (e : event) (w : World) :
  Inv w -> Inv2 w -> Inv2 (step json_loads schedule_next e w).
Proof.
  intros I I2. destruct e as [c new_conf zs | | t | fut res]; simpl.
  - destruct I2 as [A B C D E]. by constructor.
  - destruct (callbacks (ioloop w)) as [|[[c nc] zs] rest] eqn:Hq; [exact I2|].
    set (w0 := with_ioloop _ w).
    assert (Inv w0) as I0.
    { eapply Inv_frame; [..| exact I]; try reflexivity. simpl. auto. }
    assert (Inv2 w0) as I20 by (destruct I2 as [A B C D E]; by constructor).
    apply (moves_keep Inv2 c (move_Inv2 c) w0 _ (moves_guarded json_loads schedule_next
        c nc zs w0 I0) I20).
  - destruct (tasks w !! t) as [pc|] eqn:Ht; [|exact I2].
    destruct (_running pc); [|exact I2].
    unfold guarded. rewrite tick_fetches_fresh. simpl.
    destruct I2 as [A B C D E]. constructor; simpl; try assumption.
    + intros c' t' Hs. right. by apply (C c').
    + apply stops_follow_starts_cons; [exact D | discriminate].
    + rewrite length_app. simpl. lia.
  - destruct (take_future fut (futures (ioloop w))) as [[cl rest]|] eqn:Hf; [|exact I2].
    apply take_future_length in Hf.
    set (w0 := with_ioloop _ w).
    assert (Inv2 w0) as I20.
    { destruct I2 as [A B C D E]. constructor; try assumption. simpl. lia. }
    assert (count_written (trace w0) + S (List.length (futures (ioloop w0)))
            <= count_fetched (trace w0))%nat as Hb.
    { destruct I2 as [A B C D E]. simpl. lia. }
    unfold guarded, write_stats_callback, bind, lift.
    destruct res as [ex|[stats fl]]; simpl; [exact (Inv2_logged LvlError _ w0 I20)|].
    destruct (profiler cl) as [l|]; simpl; [|exact (Inv2_logged LvlError _ w0 I20)].
    destruct I20 as [A B C D E]. constructor; try assumption.
    + intros c' t' Hs. right. by apply (C c').
    + apply stops_follow_starts_cons; [exact D | discriminate].
    + simpl in *. lia.
Qed.

Lemma Inv2_initial : Inv2 initial_world.
Proof.
  constructor.
  - intros l lg Hl. discriminate.
  - constructor.
  - intros c t Ht. by destruct c.
  - intros k t tr' E. by destruct k.
  - simpl. lia.
Qed.

Lemma Inv2_run (es : list event) (w : World) :
  Inv w -> Inv2 w -> Inv2 (run json_loads schedule_next es w).
Proof.
  revert w. induction es as [|e es IH]; intros w I I2; simpl; [exact I2|].
  apply IH; [by apply Inv_step | by apply Inv2_step].
Qed.

Lemma reachable_Inv2 (w : World) : reachable json_loads schedule_next w -> Inv2 w.
Proof. intros [es ->]. apply Inv2_run; [apply Inv_initial | apply Inv2_initial]. Qed.

End Preservation2.

Lemma first_error_source (keys : list string) (conf : value) (e : exn) :
  first_error keys conf = Some e ->
  exists k, In k keys /\ py_getitem conf k = inl e /\ (e = KeyError k \/ e = TypeError).
Proof.
  induction keys as [|k keys IH]; simpl; [discriminate|].
  destruct (py_getitem conf k) as [e'|v] eqn:Hg.
  - intros [= <-]. exists k. split; [by left|]. split; [exact Hg|].
    unfold py_getitem in Hg.
    destruct conf; try (injection Hg as <-; by right).
    destruct (dict_get k kvs); [discriminate|]. injection Hg as <-. by left.
  - intros H. destruct (IH H) as (k' & Hin & Hk & He). exists k'. auto.
Qed.

Lemma py_mul_1000_error (iv : value) (e : exn) :
  py_mul_1000 iv = inl e ->
  e = TypeError /\ (iv = PyNone \/ exists kvs, iv = PyDict kvs).
Proof. destruct iv; simpl; intros [= <-]; eauto. Qed.

(** X1: whatever raw value a handler is given in whatever world, every
    exception it raises comes from one of five places: the decoder; the
    reading of a required key (KeyError on that key, or TypeError when the
    document is no object); the product of the interval and 1000 (TypeError);
    the constructor of the periodic callback when the callback time is not
    positive (ValueError); the start of the new task.  No exception comes
    from a slot that is None or from the steps on the log. *)
Theorem handler_raises_only_config_errors (json_loads : string -> exn + value)
    (schedule_next : value -> option exn)
    (c : category) (new_conf : option string) (znode_stat : ZnodeStat) (w : World) :
  handler_outcome json_loads schedule_next c new_conf
    (snd (handler json_loads schedule_next c new_conf znode_stat w)).
Proof.
  destruct (py_not_str new_conf) eqn:Hn.
  { by rewrite handler_empty. }
  destruct new_conf as [raw|]; [|discriminate].
  assert (raw <> EmptyString) as Hraw by (intros ->; discriminate).
  destruct (json_loads raw) as [e0|conf] eqn:Hj.
  { rewrite (handler_not_json _ _ _ _ _ _ Hraw e0) by done. simpl.
    exists raw. split; [done|]. split; [done|]. by left. }
  destruct (first_error (required_keys c) conf) as [e|] eqn:He.
  { rewrite (handler_key_error _ _ _ _ _ _ Hraw conf e) by done. simpl.
    exists raw. split; [done|]. split; [done|]. right. exists conf. split; [done|].
    left. by apply first_error_source. }
  apply first_error_none in He as (en & iv & d & Hr).
  destruct (py_truthy en) eqn:Ht.
  - rewrite (handler_enabled _ _ _ _ _ _ Hraw conf en iv d) by done.
    pose proof Hr as (_ & Hiv & _).
    unfold enabled_update. destruct (py_mul_1000 iv) as [e|ct] eqn:Hm.
    + pose proof (py_mul_1000_error _ _ Hm) as [-> _]. simpl.
      exists raw. split; [done|]. split; [done|]. right. exists conf. split; [done|].
      right. exists iv. split; [done|]. by left.
    + destruct (py_le_zero ct) eqn:Hz; simpl.
      * exists raw. split; [done|]. split; [done|]. right. exists conf. split; [done|].
        right. exists iv. split; [done|]. right. exists ct. split; [done|]. by left.
      * unfold started. destruct (schedule_next ct) as [e|] eqn:Hs; simpl; [|done].
        exists raw. split; [done|]. split; [done|]. right. exists conf. split; [done|].
        right. exists iv. split; [done|]. right. exists ct. split; [done|]. by right.
  - by rewrite (handler_disabled _ _ _ _ _ _ Hraw conf en iv d).
Qed.

(** X2: a raw value that decodes to JSON that is not an object (a list, a
    number, a string, a boolean, null) makes every handler raise TypeError at
    the first subscript; only the info record is added. *)
Theorem non_object_document_raises_TypeError (json_loads : string -> exn + value)
    (schedule_next : value -> option exn)
    (c : category) (raw : string) (znode_stat : ZnodeStat) (w : World) (conf : value) :
  raw <> EmptyString ->
  json_loads raw = inr conf ->
  (forall kvs, conf <> PyDict kvs) ->
  let r := handler json_loads schedule_next c (Some raw) znode_stat w in
  snd r = Raised TypeError /\ only_logged LvlInfo (info_msg c raw) w (fst r).
Proof.
  intros Hraw Hj Hno. cbv zeta.
  assert (first_error (required_keys c) conf = Some TypeError) as He.
  { destruct conf; try (by destruct c). by destruct (Hno kvs). }
  rewrite (handler_key_error _ _ _ _ _ _ Hraw conf TypeError Hj He).
  split; [done | apply logged_only].
Qed.

Lemma same_for_refl (c' : category) (w : World) : same_for c' w w.
Proof. by repeat split. Qed.

Lemma same_for_trans (c' : category) (w1 w2 w3 : World) :
  same_for c' w1 w2 -> same_for c' w2 w3 -> same_for c' w1 w3.
Proof.
  intros (A1 & B1 & C1 & D1) (A2 & B2 & C2 & D2). split; [congruence|].
  split; [congruence|]. split.
  - intros t [Ht | Ht].
    + rewrite <- (C1 t (or_introl Ht)). apply C2. left.
      unfold task_category in *. by rewrite (C1 t (or_introl Ht)).
    + rewrite (C2 t (or_intror Ht)). apply C1. right.
      unfold task_category in *. by rewrite <- (C2 t (or_intror Ht)).
  - intros l [Hl | Hl].
    + rewrite <- (D1 l (or_introl Hl)). apply D2. left.
      unfold log_class_at in *. by rewrite (D1 l (or_introl Hl)).
    + rewrite (D2 l (or_intror Hl)). apply D1. right.
      unfold log_class_at in *. by rewrite <- (D2 l (or_intror Hl)).
Qed.

(** What is appended to a heap by a handler of [c] is of category [c]. *)
Lemma lookup_snoc_other {A} (l : list A) (x : A) (i : nat) (y : A) :
  (l ++ [x]) !! i = Some y -> y <> x -> l !! i = Some y.
Proof.
  intros H Hne. apply lookup_app_Some in H as [H | [_ H]]; [exact H|].
  destruct (i - List.length l)%nat; simpl in H; [congruence | discriminate].
Qed.

Lemma task_category_stop_slot (c : category) (w : World) (t : loc) :
  task_category (stop_slot c w) t = task_category w t.
Proof.
  unfold stop_slot, task_category. destruct (task_slot c (self w)) as [t0|]; [|done].
  simpl. destruct (decide (t = t0)) as [-> | Hne].
  - rewrite list_lookup_alter_eq. by destruct (tasks w !! t0).
  - by rewrite list_lookup_alter_ne.
Qed.

Lemma log_class_at_apply_detail (c : category) (d : value) (w : World) (l : loc) :
  log_class_at (apply_detail c d w) l = log_class_at w l.
Proof.
  unfold apply_detail, log_class_at.
  destruct c; [done | |];
    (destruct (log_slot _ (self w)) as [l0|]; [|done]; simpl;
     destruct (decide (l = l0)) as [-> | Hne];
     [rewrite list_lookup_alter_eq; by destruct (logs w !! l0)
     | by rewrite list_lookup_alter_ne]).
Qed.

(** A change made by a handler of [c] adds no task and no log of another
    category. *)
Lemma move_adds_none (c c' : category) (w w' : World) :
  c <> c' -> move c w w' ->
  (forall t, task_category w' t = Some c' -> task_category w t = Some c') /\
  (forall l, log_class_at w' l = Some c' -> log_class_at w l = Some c').
Proof.
  intros Hne [lvl msg | | d | | Q | ct Q S].
  - done.
  - split; [unfold ensure_log; by destruct (log_slot c (self w))|].
    intros l. unfold ensure_log. destruct (log_slot c (self w)); [done|].
    unfold log_class_at. simpl.
    destruct ((logs w ++ [_]) !! l) as [lg|] eqn:E; [|discriminate].
    intros [= Hc]. rewrite (lookup_snoc_other _ _ _ _ E); [by rewrite Hc|].
    intros ->. simpl in Hc. congruence.
  - split; [intros t; unfold task_category; by rewrite apply_detail_tasks|].
    intros l. by rewrite log_class_at_apply_detail.
  - split; [intros t; by rewrite task_category_stop_slot|].
    intros l. unfold log_class_at. by rewrite stop_slot_logs.
  - split; [intros t; unfold task_category, clear_slot;
            by destruct (task_slot c (self w))|].
    intros l. unfold log_class_at. by rewrite clear_slot_logs.
  - split; [|done]. intros t. unfold task_category, launch. simpl.
    destruct ((tasks w ++ [_]) !! t) as [pc|] eqn:E; [|discriminate].
    intros [= Hc]. rewrite (lookup_snoc_other _ _ _ _ E); [by rewrite Hc|].
    intros ->. simpl in Hc. congruence.
Qed.

Lemma move_keeps_others (c c' : category) (w w' : World) :
  c <> c' -> Inv w -> move c w w' ->
  log_slot c' (self w') = log_slot c' (self w) /\
  task_slot c' (self w') = task_slot c' (self w) /\
  (forall t, task_category w t = Some c' -> tasks w' !! t = tasks w !! t) /\
  (forall l, log_class_at w l = Some c' -> logs w' !! l = logs w !! l).
Proof.
  intros Hne I [lvl msg | | d | | Q | ct Q S].
  - by repeat split.
  - unfold ensure_log. destruct (log_slot c (self w)); [by repeat split|].
    split; [simpl; rewrite log_slot_set_log; by rewrite decide_False|].
    split; [simpl; by rewrite task_slot_set_log|]. split; [done|].
    intros l Hl. simpl. unfold log_class_at in Hl.
    destruct (logs w !! l) eqn:E; [|discriminate]. by apply lookup_app_l_Some.
  - split; [by rewrite apply_detail_self|]. split; [by rewrite apply_detail_self|].
    split; [by rewrite apply_detail_tasks|].
    intros l Hl. unfold apply_detail.
    destruct c; [done | |];
      (destruct (log_slot _ (self w)) as [l0|] eqn:Hs; [|done]; simpl;
       apply list_lookup_alter_ne; intros ->;
       pose proof (inv_log_ref w I _ _ Hs); congruence).
  - split; [by rewrite stop_slot_self|]. split; [by rewrite stop_slot_self|].
    split; [|by rewrite stop_slot_logs].
    intros t Ht. unfold stop_slot. destruct (task_slot c (self w)) as [t0|] eqn:Hs; [|done].
    simpl. apply list_lookup_alter_ne. intros ->.
    pose proof (inv_task_ref w I _ _ Hs). congruence.
  - split; [by rewrite clear_slot_log|]. split.
    { unfold clear_slot. destruct (task_slot c (self w)); [|done].
      simpl. rewrite task_slot_set_task. by rewrite decide_False. }
    split; [|by rewrite clear_slot_logs].
    intros t _. unfold clear_slot. by destruct (task_slot c (self w)).
  - split; [by rewrite launch_log|]. split.
    { unfold launch. simpl. rewrite task_slot_set_task. by rewrite decide_False. }
    split; [|done]. intros t Ht. unfold launch. simpl. unfold task_category in Ht.
    destruct (tasks w !! t) eqn:E; [|discriminate]. by apply lookup_app_l_Some.
Qed.

Lemma move_same_for (c c' : category) (w w' : World) :
  c <> c' -> Inv w -> move c w w' -> same_for c' w w'.
Proof.
  intros Hne I Hm.
  destruct (move_keeps_others c c' w w' Hne I Hm) as (A & B & C & D).
  destruct (move_adds_none c c' w w' Hne Hm) as [E F].
  split; [exact A|]. split; [exact B|]. split.
  - intros t [Ht | Ht]; [by apply C | by apply C, E].
  - intros l [Hl | Hl]; [by apply D | by apply D, F].
Qed.

(** X3: in a reachable world, a handler leaves the other categories alone:
    for every other category both slots are as before, every task and every
    log of the category in the world before is unchanged in the world after,
    and every task and every log of the category in the world after was
    there, the same, before: none is changed, and none is built or started,
    whatever the handler is given. *)
Theorem other_categories_untouched (json_loads : string -> exn + value)
    (schedule_next : value -> option exn)
    (c c' : category) (new_conf : option string) (znode_stat : ZnodeStat) (w : World) :
  reachable json_loads schedule_next w ->
  c <> c' ->
  let w' := fst (handler json_loads schedule_next c new_conf znode_stat w) in
  log_slot c' (self w') = log_slot c' (self w) /\
  task_slot c' (self w') = task_slot c' (self w) /\
  (forall t, task_category w t = Some c' \/ task_category w' t = Some c' ->
             tasks w' !! t = tasks w !! t) /\
  (forall l, log_class_at w l = Some c' \/ log_class_at w' l = Some c' ->
             logs w' !! l = logs w !! l).
Proof.
  intros Hr Hne. pose proof (reachable_Inv _ _ _ Hr) as I.
  apply (moves_rel (same_for c') c (same_for_refl c') (same_for_trans c')
           (fun w w' => move_same_for c c' w w' Hne) w _
           (moves_handler json_loads schedule_next c new_conf znode_stat w I)).
Qed.

Lemma prepared_length (c : category) (raw : string) (d : value) (w : World) :
  List.length (tasks (stop_slot c (apply_detail c d
                 (ensure_log c (logged LvlInfo (info_msg c raw) w)))))
  = List.length (tasks w).
Proof.
  unfold stop_slot. destruct (task_slot c _); simpl; rewrite ?length_alter;
    rewrite apply_detail_tasks; unfold ensure_log;
    by destruct (log_slot c _).
Qed.

(** X4: in a reachable world, after an update that enables with a valid
    interval and whose start returns, the handler has returned and the
    category has exactly one running task: the task just built, which is of
    the category, is running and is the task of the slot, and no other task
    of the category is running. *)
Theorem enabling_leaves_one_running_task (json_loads : string -> exn + value)
    (schedule_next : value -> option exn)
    (c : category) (raw : string) (iv d ct : value) (znode_stat : ZnodeStat)
    (w : World) :
  reachable json_loads schedule_next w ->
  enabling json_loads c raw iv d ->
  valid_interval iv ct ->
  schedule_next ct = None ->
  let r := handler json_loads schedule_next c (Some raw) znode_stat w in
  let w' := fst r in
  let n := List.length (tasks w) in
  snd r = Returned tt /\
  task_category w' n = Some c /\
  task_running w' n = true /\
  task_slot c (self w') = Some n /\
  (forall t, task_category w' t = Some c -> task_running w' t = true -> t = n).
Proof.
  intros Hr He Hv Hs r w' n.
  assert (Inv w') as I' by apply Inv_handler, (reachable_Inv json_loads schedule_next), Hr.
  destruct Hv as (Hm & Hz & Hn).
  unfold w', r in *.
  rewrite (enabling_accepted _ schedule_next _ _ _ _ ct znode_stat w He Hm Hz) in *.
  cbn [fst snd] in *.
  set (w3 := stop_slot c _) in *.
  destruct (launch_task c ct w3) as [Hslot Hnew].
  assert (List.length (tasks w3) = List.length (tasks w)) as Hlen by apply prepared_length.
  rewrite Hlen in Hslot, Hnew. fold n in Hslot, Hnew.
  split; [unfold started; by rewrite Hs|].
  split; [unfold task_category; by rewrite Hnew|].
  split; [unfold task_running; by rewrite Hnew|].
  split; [exact Hslot|].
  intros t Hc Hrun. unfold task_running, task_category in *.
  destruct (tasks (launch c ct w3) !! t) as [pc|] eqn:Ht; [|discriminate].
  pose proof (inv_slot _ I' t pc Ht Hrun) as Hsl. injection Hc as Hc.
  rewrite Hc in Hsl. congruence.
Qed.

(** X5: in a reachable world, an update that enables with an interval that
    is null or an object raises TypeError when the callback time is computed,
    after the log was provided and the running task of the slot stopped: no
    task of the category is left running, none is started, and the slot
    still refers to the task it held. *)
Theorem null_interval_stops_without_restart (json_loads : string -> exn + value)
    (schedule_next : value -> option exn)
    (c : category) (raw : string) (iv d : value) (znode_stat : ZnodeStat) (w : World) :
  reachable json_loads schedule_next w ->
  enabling json_loads c raw iv d ->
  iv = PyNone \/ (exists kvs, iv = PyDict kvs) ->
  let r := handler json_loads schedule_next c (Some raw) znode_stat w in
  snd r = Raised TypeError /\
  quiet c (fst r) /\
  task_slot c (self (fst r)) = task_slot c (self w) /\
  starts (trace (fst r)) = starts (trace w) /\
  is_Some (log_slot c (self (fst r))).
Proof.
  intros Hr (Hraw & conf & en & Hj & Hrd & Ht) Hiv. cbv zeta.
  rewrite (handler_enabled _ _ _ _ _ _ Hraw conf en iv d Hj Hrd Ht).
  unfold enabled_update.
  assert (py_mul_1000 iv = inl TypeError) as -> by (destruct Hiv as [-> | [kvs ->]]; done).
  cbn [fst snd].
  set (w1 := ensure_log c (logged LvlInfo (info_msg c raw) w)).
  set (w2 := apply_detail c d w1).
  assert (Inv w2) as I2
    by by apply Inv_apply_detail, Inv_ensure_log, Inv_logged, (reachable_Inv json_loads schedule_next).
  split; [done|]. split; [by apply quiet_stop_slot|].
  rewrite stop_slot_self. unfold w2. rewrite apply_detail_self.
  split; [|split; [|apply ensure_log_some]].
  - unfold w1, ensure_log. destruct (log_slot c _); [done|].
    simpl. by rewrite task_slot_set_log.
  - unfold stop_slot. rewrite apply_detail_self.
    assert (trace (apply_detail c d w1) = Logged LvlInfo (info_msg c raw) :: trace w) as Htr.
    { rewrite apply_detail_trace. unfold w1, ensure_log. by destruct (log_slot c _). }
    destruct (task_slot c (self w1)); simpl; by rewrite Htr.
Qed.

(** X6: an update that disables a category whose slot holds no task returns
    after the info record: nothing is stopped, no log is created, the slots
    and both heaps are as before. *)
Theorem disable_without_task_changes_nothing (json_loads : string -> exn + value)
    (schedule_next : value -> option exn)
    (c : category) (raw : string) (znode_stat : ZnodeStat) (w : World) :
  disabling json_loads c raw ->
  task_slot c (self w) = None ->
  let r := handler json_loads schedule_next c (Some raw) znode_stat w in
  snd r = Returned tt /\ only_logged LvlInfo (info_msg c raw) w (fst r).
Proof.
  intros Hd Hs. cbv zeta. rewrite (disabling_result _ schedule_next _ _ znode_stat w Hd).
  split; [done|]. unfold disabled_update, clear_slot, stop_slot. simpl.
  rewrite Hs. simpl. rewrite Hs. apply logged_only.
Qed.

Lemma move_keeps_logs (c : category) (w w' : World) :
  Inv w -> move c w w' -> keeps_logs w w'.
Proof.
  intros I [lvl msg | | d | | Q | ct Q S] c' l Hl.
  - exact Hl.
  - unfold ensure_log. destruct (log_slot c (self w)) eqn:Hs; [exact Hl|].
    simpl. rewrite log_slot_set_log. case_decide; [congruence | exact Hl].
  - by rewrite apply_detail_self.
  - by rewrite stop_slot_self.
  - by rewrite clear_slot_log.
  - by rewrite launch_log.
Qed.

Section LogsKept.

Variable json_loads : string -> exn + value.
Variable schedule_next : value -> option exn.

Lemma step_keeps_logs (e : event) (w : World) :
  Inv w -> keeps_logs w (step json_loads schedule_next e w).
Proof.
  intros I. destruct e as [c new_conf zs | | t | fut res]; simpl.
  - by intros c' l.
  - destruct (callbacks (ioloop w)) as [|[[c nc] zs] rest]; [by intros c' l|].
    set (w0 := with_ioloop _ w).
    assert (Inv w0) as I0.
    { eapply Inv_frame; [..| exact I]; try reflexivity. simpl. auto. }
    apply (moves_rel keeps_logs c (fun w c' l H => H)
             (fun w1 w2 w3 H1 H2 c' l H => H2 c' l (H1 c' l H))
             (move_keeps_logs c) w0 _ (moves_guarded json_loads schedule_next c nc zs w0 I0)).
  - destruct (tasks w !! t) as [pc|]; [|by intros c' l].
    destruct (_running pc); by intros c' l.
  - destruct (take_future fut (futures (ioloop w))) as [[cl rest]|]; [|by intros c' l].
    unfold guarded, write_stats_callback, bind, lift.
    destruct res as [ex|[stats fl]]; simpl; [by intros c' l|].
    destruct (profiler cl); by intros c' l.
Qed.

End LogsKept.

(** X7: once the slot of a category holds a log, it holds that same log in
    every later world, whatever updates, timers and futures come. *)
Theorem log_reference_is_permanent (json_loads : string -> exn + value)
    (schedule_next : value -> option exn)
    (es : list event) (w : World) (c : category) (l : loc) :
  reachable json_loads schedule_next w ->
  log_slot c (self w) = Some l ->
  log_slot c (self (run json_loads schedule_next es w)) = Some l.
Proof.
  intros Hr. pose proof (reachable_Inv _ _ _ Hr) as I. clear Hr.
  revert w I. induction es as [|e es IH]; intros w I Hl; simpl; [exact Hl|].
  apply IH; [by apply Inv_step | by apply step_keeps_logs].
Qed.

(** X8: in a reachable world every profile log is the log of the slot of
    its class, so two logs of one class are the same log and at most three
    logs exist. *)
Theorem one_log_per_category (json_loads : string -> exn + value)
    (schedule_next : value -> option exn) (w : World)
    (l : loc) (lg : ProfileLog) :
  reachable json_loads schedule_next w ->
  logs w !! l = Some lg ->
  log_slot (log_class lg) (self w) = Some l /\
  (forall l' lg', logs w !! l' = Some lg' -> log_class lg' = log_class lg -> l' = l) /\
  (List.length (logs w) <= 3)%nat.
Proof.
  intros Hr Hl. pose proof (reachable_Inv2 _ _ _ Hr) as [A _ _ _ _].
  split; [by apply A|]. split.
  - intros l' lg' Hl' Hc. pose proof (A _ _ Hl) as H1. pose proof (A _ _ Hl') as H2.
    rewrite Hc in H2. congruence.
  - destruct (logs w) as [|a [|b [|c0 [|d0 rest]]]] eqn:E; simpl; try lia.
    pose proof (A 0%nat a eq_refl) as Ha. pose proof (A 1%nat b eq_refl) as Hb.
    pose proof (A 2%nat c0 eq_refl) as Hc. pose proof (A 3%nat d0 eq_refl) as Hd.
    destruct (log_class a), (log_class b), (log_class c0), (log_class d0); congruence.
Qed.

Lemma starts_app (k tr : list obs) : starts (k ++ tr) = starts k ++ starts tr.
Proof.
  induction k as [|o k IH]; simpl; [done|]. destruct o; simpl; by rewrite ?IH.
Qed.

(** X9: in every run each task is started at most once, and every stop of
    a task comes after its start and is followed by no start of that task: a
    task that was stopped is never started again. *)
Theorem stopped_task_never_restarted (json_loads : string -> exn + value)
    (schedule_next : value -> option exn)
    (es : list event) :
  let tr := trace (run json_loads schedule_next es initial_world) in
  NoDup (starts tr) /\
  (forall k t tr', tr = k ++ Stopped t :: tr' ->
     In (Started t) tr' /\ ~ In (Started t) k).
Proof.
  cbv zeta.
  pose proof (Inv2_run json_loads schedule_next es initial_world Inv_initial Inv2_initial)
    as [_ B _ D _].
  split; [exact B|]. intros k t tr' E.
  pose proof (D k t tr' E) as Hin. split; [exact Hin|].
  rewrite E, starts_app in B. simpl in B.
  apply NoDup_app in B as (_ & Hdisj & _).
  intros Hk. apply (Hdisj t); rewrite list_elem_of_In, starts_In; assumption.
Qed.

(** X10: in every run the writes made and the fetches still pending never
    outnumber the fetches issued: a fetch is written at most once. *)
Theorem writes_bounded_by_fetches (json_loads : string -> exn + value)
    (schedule_next : value -> option exn)
    (es : list event) :
  let w := run json_loads schedule_next es initial_world in
  (count_written (trace w) + List.length (futures (ioloop w))
   <= count_fetched (trace w))%nat.
Proof.
  apply (inv_balance _ (Inv2_run json_loads schedule_next
      es initial_world Inv_initial Inv2_initial)).
Qed.

(** X11: in a reachable world, when a pending fetch completes with
    (stats, failures) its callback writes exactly the stats, once, to the log
    the slot of the category of the fetch holds, and ignores the failures;
    when it completes with an exception the callback raises it and writes
    nothing. *)
Theorem completed_fetch_is_written (json_loads : string -> exn + value)
    (schedule_next : value -> option exn)
    (w : World) (fut : nat) (cl : closure) :
  reachable json_loads schedule_next w ->
  In (fut, cl) (futures (ioloop w)) ->
  exists l,
    log_slot (stats_source cl) (self w) = Some l /\
    (forall stats failures,
       write_stats_callback cl (inr (stats, failures)) w
       = (with_trace (Written l stats :: trace w) w, Returned tt)) /\
    (forall e, write_stats_callback cl (inl e) w = (w, Raised e)).
Proof.
  intros Hr Hin. pose proof (reachable_Inv _ _ _ Hr) as I.
  pose proof (reachable_Inv2 _ _ _ Hr) as I2.
  destruct (inv_future w I fut cl Hin) as (l & Hp & Hc).
  unfold log_class_at in Hc. destruct (logs w !! l) as [lg|] eqn:Hl; [|discriminate].
  injection Hc as Hc. exists l. split.
  - rewrite <- Hc. by apply (inv_log_owned w I2).
  - split; [|done]. intros stats failures.
    unfold write_stats_callback, bind, lift. simpl. by rewrite Hp.
Qed.

Lemma logged_set_queue (q : list update) (lvl : level) (msg : string) (w : World) :
  logged lvl msg (set_queue q w) = set_queue q (logged lvl msg w).
Proof. reflexivity. Qed.

Lemma ensure_log_set_queue (q : list update) (c : category) (w : World) :
  ensure_log c (set_queue q w) = set_queue q (ensure_log c w).
Proof. unfold ensure_log. simpl. by destruct (log_slot c (self w)). Qed.

Lemma apply_detail_set_queue (q : list update) (c : category) (d : value) (w : World) :
  apply_detail c d (set_queue q w) = set_queue q (apply_detail c d w).
Proof.
  destruct w as [[nl pl xl nt pt xt] ls ts [cbs fs] nf tr].
  destruct c, nl, pl, xl; reflexivity.
Qed.

Lemma stop_slot_set_queue (q : list update) (c : category) (w : World) :
  stop_slot c (set_queue q w) = set_queue q (stop_slot c w).
Proof. unfold stop_slot. simpl. by destruct (task_slot c (self w)). Qed.

Lemma clear_slot_set_queue (q : list update) (c : category) (w : World) :
  clear_slot c (set_queue q w) = set_queue q (clear_slot c w).
Proof. unfold clear_slot. simpl. by destruct (task_slot c (self w)). Qed.

(** A handler does not read or change the queue of callbacks. *)
Lemma handler_set_queue (json_loads : string -> exn + value)
    (schedule_next : value -> option exn) (q : list update)
    (c : category) (new_conf : option string) (znode_stat : ZnodeStat) (w : World) :
  handler json_loads schedule_next c new_conf znode_stat (set_queue q w)
  = (set_queue q (fst (handler json_loads schedule_next c new_conf znode_stat w)),
     snd (handler json_loads schedule_next c new_conf znode_stat w)).
Proof.
  destruct (py_not_str new_conf) eqn:Hn.
  { by rewrite !handler_empty. }
  destruct new_conf as [raw|]; [|discriminate].
  assert (raw <> EmptyString) as Hraw by (intros ->; discriminate).
  destruct (json_loads raw) as [e0|conf] eqn:Hj.
  { by rewrite !(handler_not_json _ _ _ _ _ _ Hraw e0). }
  destruct (first_error (required_keys c) conf) as [e|] eqn:He.
  { by rewrite !(handler_key_error _ _ _ _ _ _ Hraw conf e). }
  apply first_error_none in He as (en & iv & d & Hr).
  destruct (py_truthy en) eqn:Ht.
  - rewrite !(handler_enabled _ _ _ _ _ _ Hraw conf en iv d) by done.
    unfold enabled_update.
    rewrite logged_set_queue, ensure_log_set_queue, apply_detail_set_queue,
      stop_slot_set_queue.
    destruct (py_mul_1000 iv) as [e|ct]; [done|].
    by destruct (py_le_zero ct).
  - rewrite !(handler_disabled _ _ _ _ _ _ Hraw conf en iv d) by done.
    unfold disabled_update.
    by rewrite logged_set_queue, stop_slot_set_queue, clear_slot_set_queue.
Qed.

Section Fifo.

Variable json_loads : string -> exn + value.
Variable schedule_next : value -> option exn.

Lemma apply_update_set_queue (q : list update) (w : World) (u : update) :
  apply_update json_loads schedule_next
      (set_queue q w) u = set_queue q (apply_update json_loads schedule_next w u).
Proof.
  unfold apply_update, guarded. rewrite handler_set_queue.
  destruct (handler json_loads schedule_next u.1.1 u.1.2 u.2 w) as [w' [[]|e]]; reflexivity.
Qed.

Lemma fold_updates_set_queue (q : list update) (us : list update) (w : World) :
  fold_left (apply_update json_loads schedule_next) us (set_queue q w)
  = set_queue q (fold_left (apply_update json_loads schedule_next) us w).
Proof.
  revert w. induction us as [|u us IH]; intros w; simpl; [done|].
  by rewrite apply_update_set_queue, IH.
Qed.

Lemma run_app (es1 es2 : list event) (w : World) :
  run json_loads schedule_next (es1 ++ es2) w = run json_loads schedule_next
      es2 (run json_loads schedule_next es1 w).
Proof. revert w. induction es1 as [|e es1 IH]; intros w; simpl; [done | apply IH]. Qed.

Lemma run_delivers (us : list update) (w : World) :
  run json_loads schedule_next (map deliver us) w = set_queue (callbacks (ioloop w) ++ us) w.
Proof.
  revert w. induction us as [|[[c nc] zs] us IH]; intros w; simpl.
  - rewrite app_nil_r. by destruct w as [m ls ts [cbs fs] nf tr].
  - rewrite IH. unfold set_queue. simpl. by rewrite <- app_assoc.
Qed.

Lemma step_run_callback (u : update) (rest : list update) (w : World) :
  step json_loads schedule_next RunCallback (set_queue (u :: rest) w)
  = apply_update json_loads schedule_next (set_queue rest w) u.
Proof. by destruct u as [[c nc] zs]. Qed.

Lemma run_callbacks (us q : list update) (w : World) :
  run json_loads schedule_next (repeat RunCallback (List.length us)) (set_queue (us ++ q) w)
  = set_queue q (fold_left (apply_update json_loads schedule_next) us w).
Proof.
  revert w. induction us as [|u us IH]; intros w; [done|].
  cbn [List.length repeat run app fold_left].
  by rewrite step_run_callback, apply_update_set_queue, IH.
Qed.

End Fifo.

(** X12: updates are applied in the order the watches delivered them: when
    the queue of the loop is empty, delivering a sequence of updates (for any
    mix of categories) and then letting the loop run as many callbacks gives
    the world obtained by running the handlers one after the other in the
    order of delivery, each with the arguments it was delivered with. *)
Theorem updates_applied_in_delivery_order (json_loads : string -> exn + value)
    (schedule_next : value -> option exn)
    (us : list update) (w : World) :
  callbacks (ioloop w) = [] ->
  run json_loads schedule_next (map deliver us ++ repeat RunCallback (List.length us)) w
  = fold_left (apply_update json_loads schedule_next) us w.
Proof.
  intros Hq. rewrite run_app, run_delivers, Hq. simpl.
  rewrite <- (app_nil_r us) at 2. rewrite run_callbacks.
  rewrite <- fold_updates_set_queue. f_equal.
  destruct w as [m ls ts [cbs fs] nf tr]. simpl in Hq. by subst cbs.
Qed.

Lemma route_list_elem (routes : gmap string HandlerInfo) (route : string)
    (cls : HandlerClass) (kw : gmap string kwarg) :
  (route, cls, kw) ∈ route_list routes <->
  exists h, routes !! route = Some h /\ cls = handler_class h /\ kw = init_kwargs h.
Proof.
  unfold route_list. rewrite list_elem_of_fmap. split.
  - intros ([r h] & [= -> -> ->] & Hin). apply elem_of_map_to_list in Hin. eauto.
  - intros (h & Hl & -> & ->). exists (route, h). split; [done|].
    by apply elem_of_map_to_list.
Qed.

(** X13: whatever the roles of the node, each of the two route tables
    serves its five paths, each exactly once. *)
Theorem route_tables_serve_fixed_paths :
  (forall is_lb_node is_tq_node,
     (fun r => r.1.1) <$> get_local_stats_api_routes is_lb_node is_tq_node
     ≡ₚ local_paths) /\
  (forall is_master,
     (fun r => r.1.1) <$> get_cluster_stats_api_routes is_master ≡ₚ cluster_paths).
Proof.
  split.
  - intros [] []; vm_compute; solve_Permutation.
  - intros []; vm_compute; solve_Permutation.
Qed.

(** X14: a local route is answered by the 404 stub exactly when the node
    lacks the role of the route: proxies on a node that is no load balancer,
    rabbitmq and push_queues on a node that runs no taskqueue; the stub
    carries a reason and no source, and every other route is answered by
    CurrentStatsHandler with a source and the default include lists. *)
Theorem local_route_is_stub_iff_role_missing (is_lb_node is_tq_node : bool)
    (route : string) (cls : HandlerClass) (kw : gmap string kwarg) :
  (route, cls, kw) ∈ get_local_stats_api_routes is_lb_node is_tq_node ->
  (cls = Respond404Handler <->
     (route = "/stats/local/proxies" /\ is_lb_node = false) \/
     ((route = "/stats/local/rabbitmq" \/ route = "/stats/local/push_queues") /\
      is_tq_node = false)) /\
  (cls = Respond404Handler ->
     kw !! "source" = None /\ is_Some (kw !! "reason")) /\
  (cls <> Respond404Handler ->
     cls = CurrentStatsHandler /\ is_Some (kw !! "source") /\
     kw !! "default_include_lists" = Some (KwIncludeLists DEFAULT_INCLUDE_LISTS)).
Proof.
  unfold get_local_stats_api_routes. intros H.
  destruct is_lb_node, is_tq_node; cbv zeta beta iota in H;
    apply route_list_elem in H as (h & Hl & -> & ->);
    rewrite !lookup_insert_Some, lookup_empty in Hl;
    repeat (destruct_or! || destruct_and!); simplify_eq; simpl;
    (split; [intuition congruence|]); split; intros Hc; try done;
    repeat split; first [done | by eexists].
Qed.

(** X15: on the master every cluster route is answered by
    CurrentClusterStatsHandler with a source and the default include lists;
    on any other node every cluster route is answered by the 404 stub with
    one and the same reason. *)
Theorem cluster_routes_follow_master (is_master : bool)
    (route : string) (cls : HandlerClass) (kw : gmap string kwarg) :
  (route, cls, kw) ∈ get_cluster_stats_api_routes is_master ->
  if is_master then
    cls = CurrentClusterStatsHandler /\ is_Some (kw !! "source") /\
    kw !! "default_include_lists" = Some (KwIncludeLists DEFAULT_INCLUDE_LISTS)
  else
    cls = Respond404Handler /\
    kw = reason_kwargs "Only master node provides cluster stats".
Proof.
  unfold get_cluster_stats_api_routes. intros H.
  destruct is_master; cbv zeta beta iota in H;
    apply route_list_elem in H as (h & Hl & -> & ->);
    rewrite !lookup_insert_Some, lookup_empty in Hl;
    repeat (destruct_or! || destruct_and!); simplify_eq; simpl;
    repeat split; first [done | by eexists].
Qed.

(** ** The further properties at concrete inputs *)

Lemma non_object_document_raises_TypeError_witness :
  (conf_list <> EmptyString /\
   JsonRef.json_loads conf_list = inr (PyList [PyInt 1]) /\
   (forall kvs, PyList [PyInt 1] <> PyDict kvs)) /\
  snd (handler JsonRef.json_loads TornadoRef.schedule_next
      Nodes (Some conf_list) None initial_world)
  = Raised TypeError.
Proof.
  assert (conf_list <> EmptyString) as Hne by discriminate.
  assert (forall kvs, PyList [PyInt 1] <> PyDict kvs) as Hno by discriminate.
  split; [by repeat split|].
  exact (proj1 (non_object_document_raises_TypeError JsonRef.json_loads TornadoRef.schedule_next
      Nodes
                  conf_list None initial_world (PyList [PyInt 1]) Hne eq_refl Hno)).
Defined.

Lemma other_categories_untouched_witness :
  (reachable JsonRef.json_loads TornadoRef.schedule_next (world_on Nodes) /\
   Processes <> Nodes) /\
  let w' := fst (handler JsonRef.json_loads TornadoRef.schedule_next Processes
                   (Some conf_on) None (world_on Nodes)) in
  log_slot Nodes (self w') = Some 0%nat /\ task_slot Nodes (self w') = Some 0%nat /\
  tasks w' !! 0%nat = tasks (world_on Nodes) !! 0%nat /\
  task_category w' 1 = Some Processes /\
  (task_category w' 1 = Some Nodes -> tasks w' !! 1%nat = None).
Proof.
  assert (Processes <> Nodes) as Hne by discriminate.
  split; [split; [apply world_on_reachable | exact Hne]|].
  destruct (other_categories_untouched JsonRef.json_loads TornadoRef.schedule_next
              Processes Nodes (Some conf_on) None (world_on Nodes)
              (world_on_reachable Nodes) Hne)
    as (H1 & H2 & H3 & _).
  split; [exact H1|]. split; [exact H2|].
  split; [exact (H3 0%nat (or_introl eq_refl))|].
  split; [reflexivity|]. intros H. exact (H3 1%nat (or_intror H)).
Defined.

Lemma enabling_leaves_one_running_task_witness :
  (reachable JsonRef.json_loads TornadoRef.schedule_next (world_on Processes) /\
   enabling JsonRef.json_loads Processes conf_on_detailed (PyInt 10) (PyBool true) /\
   valid_interval (PyInt 10) (PyInt 10000) /\
   TornadoRef.schedule_next (PyInt 10000) = None) /\
  let r := handler JsonRef.json_loads TornadoRef.schedule_next Processes
             (Some conf_on_detailed) None (world_on Processes) in
  snd r = Returned tt /\
  task_category (fst r) 1 = Some Processes /\
  task_running (fst r) 1 = true /\
  task_slot Processes (self (fst r)) = Some 1%nat /\
  (forall t, task_category (fst r) t = Some Processes ->
             task_running (fst r) t = true -> t = 1%nat).
Proof.
  split.
  { split; [apply world_on_reachable|]. split; [apply conf_on_detailed_enabling|].
    split; [exact (valid_interval_int 10 eq_refl) | reflexivity]. }
  exact (enabling_leaves_one_running_task JsonRef.json_loads TornadoRef.schedule_next
           Processes conf_on_detailed
           (PyInt 10) (PyBool true) (PyInt 10000) None (world_on Processes)
           (world_on_reachable Processes) (conf_on_detailed_enabling Processes)
           (valid_interval_int 10 eq_refl) eq_refl).
Defined.

Lemma conf_null_interval_enabling (c : category) :
  enabling JsonRef.json_loads c conf_null_interval PyNone (PyBool false).
Proof.
  split; [discriminate|].
  exists (PyDict [("detailed", PyBool false); ("interval", PyNone);
                  ("enabled", PyBool true)]), (PyBool true).
  by repeat split.
Qed.

Lemma null_interval_stops_without_restart_witness :
  (reachable JsonRef.json_loads TornadoRef.schedule_next (world_on Nodes) /\
   enabling JsonRef.json_loads Nodes conf_null_interval PyNone (PyBool false) /\
   (PyNone = PyNone \/ exists kvs, PyNone = PyDict kvs)) /\
  let r := handler JsonRef.json_loads TornadoRef.schedule_next Nodes (Some conf_null_interval) None
             (world_on Nodes) in
  snd r = Raised TypeError /\ task_slot Nodes (self (fst r)) = Some 0%nat /\
  task_running (fst r) 0 = false.
Proof.
  split.
  { split; [apply world_on_reachable|]. split; [apply conf_null_interval_enabling|].
    by left. }
  destruct (null_interval_stops_without_restart JsonRef.json_loads TornadoRef.schedule_next Nodes
              conf_null_interval PyNone (PyBool false) None (world_on Nodes)
              (world_on_reachable Nodes) (conf_null_interval_enabling Nodes)
              (or_introl eq_refl)) as (H1 & _ & H3 & _).
  split; [exact H1|]. split; [exact H3 | reflexivity].
Defined.

Lemma disable_without_task_changes_nothing_witness :
  (disabling JsonRef.json_loads Nodes conf_off /\
   task_slot Nodes (self initial_world) = None) /\
  snd (handler JsonRef.json_loads TornadoRef.schedule_next Nodes (Some conf_off) None initial_world)
  = Returned tt /\
  only_logged LvlInfo (info_msg Nodes conf_off) initial_world
    (fst (handler JsonRef.json_loads TornadoRef.schedule_next
        Nodes (Some conf_off) None initial_world)).
Proof.
  split; [split; [apply conf_off_disabling | reflexivity]|].
  exact (disable_without_task_changes_nothing JsonRef.json_loads TornadoRef.schedule_next
      Nodes conf_off None
           initial_world (conf_off_disabling Nodes) eq_refl).
Defined.

Lemma log_reference_is_permanent_witness :
  (reachable JsonRef.json_loads TornadoRef.schedule_next (world_on Nodes) /\
   log_slot Nodes (self (world_on Nodes)) = Some 0%nat) /\
  log_slot Nodes
    (self (run JsonRef.json_loads TornadoRef.schedule_next
             [Deliver Nodes (Some conf_off) None; RunCallback;
              Deliver Nodes (Some conf_on_detailed) None; RunCallback]
             (world_on Nodes))) = Some 0%nat.
Proof.
  split; [split; [apply world_on_reachable | reflexivity]|].
  exact (log_reference_is_permanent JsonRef.json_loads TornadoRef.schedule_next
      _ (world_on Nodes) Nodes 0%nat
           (world_on_reachable Nodes) eq_refl).
Defined.

Lemma one_log_per_category_witness :
  (reachable JsonRef.json_loads TornadoRef.schedule_next (world_on Nodes) /\
   logs (world_on Nodes) !! 0%nat = Some (mkProfileLog Nodes DEFAULT_INCLUDE_LISTS None)) /\
  log_slot Nodes (self (world_on Nodes)) = Some 0%nat /\
  (List.length (logs (world_on Nodes)) <= 3)%nat.
Proof.
  split; [split; [apply world_on_reachable | reflexivity]|].
  destruct (one_log_per_category JsonRef.json_loads TornadoRef.schedule_next (world_on Nodes) 0%nat
              (mkProfileLog Nodes DEFAULT_INCLUDE_LISTS None)
              (world_on_reachable Nodes) eq_refl) as (H1 & _ & H3).
  exact (conj H1 H3).
Defined.

Lemma stopped_task_never_restarted_witness :
  let es := [Deliver Nodes (Some conf_on) None; RunCallback;
             Deliver Nodes (Some conf_off) None; RunCallback;
             Deliver Nodes (Some conf_on_detailed) None; RunCallback] in
  let tr := trace (run JsonRef.json_loads TornadoRef.schedule_next es initial_world) in
  let k := [Started 1; Logged LvlInfo (info_msg Nodes conf_on_detailed)] in
  let tr' := [Logged LvlInfo (info_msg Nodes conf_off); Started 0;
              Logged LvlInfo (info_msg Nodes conf_on)] in
  tr = k ++ Stopped 0 :: tr' /\
  NoDup (starts tr) /\ In (Started 0) tr' /\ ~ In (Started 0) k.
Proof.
  cbv zeta. split; [reflexivity|].
  destruct (stopped_task_never_restarted JsonRef.json_loads TornadoRef.schedule_next
              [Deliver Nodes (Some conf_on) None; RunCallback;
               Deliver Nodes (Some conf_off) None; RunCallback;
               Deliver Nodes (Some conf_on_detailed) None; RunCallback])
    as (H0 & H).
  split; [exact H0|].
  exact (H [Started 1; Logged LvlInfo (info_msg Nodes conf_on_detailed)] 0%nat
           [Logged LvlInfo (info_msg Nodes conf_off); Started 0;
            Logged LvlInfo (info_msg Nodes conf_on)] eq_refl).
Defined.

Lemma completed_fetch_is_written_witness :
  let w := run JsonRef.json_loads TornadoRef.schedule_next
             [Deliver Nodes (Some conf_on) None; RunCallback; Fire 0] initial_world in
  (reachable JsonRef.json_loads TornadoRef.schedule_next w /\
   In (0%nat, mkClosure Nodes (Some 0%nat)) (futures (ioloop w))) /\
  exists l,
    log_slot Nodes (self w) = Some l /\
    (forall stats failures,
       write_stats_callback (mkClosure Nodes (Some 0%nat)) (inr (stats, failures)) w
       = (with_trace (Written l stats :: trace w) w, Returned tt)) /\
    (forall e, write_stats_callback (mkClosure Nodes (Some 0%nat)) (inl e) w
               = (w, Raised e)).
Proof.
  cbv zeta.
  assert (reachable JsonRef.json_loads TornadoRef.schedule_next
            (run JsonRef.json_loads TornadoRef.schedule_next
               [Deliver Nodes (Some conf_on) None; RunCallback; Fire 0] initial_world))
    as Hr by (by eexists).
  assert (In (0%nat, mkClosure Nodes (Some 0%nat))
            (futures (ioloop (run JsonRef.json_loads TornadoRef.schedule_next
               [Deliver Nodes (Some conf_on) None; RunCallback; Fire 0] initial_world))))
    as Hin by (by left).
  split; [by split|].
  exact (completed_fetch_is_written JsonRef.json_loads TornadoRef.schedule_next _ 0%nat
           (mkClosure Nodes (Some 0%nat)) Hr Hin).
Defined.

Lemma updates_applied_in_delivery_order_witness :
  let us : list update := [(Nodes, Some conf_on, None); (Proxies, Some conf_on, None);
                           (Nodes, Some conf_off, None)] in
  callbacks (ioloop initial_world) = [] /\
  run JsonRef.json_loads TornadoRef.schedule_next
      (map deliver us ++ repeat RunCallback (List.length us))
    initial_world
  = fold_left (apply_update JsonRef.json_loads TornadoRef.schedule_next) us initial_world.
Proof.
  cbv zeta. split; [reflexivity|].
  exact (updates_applied_in_delivery_order JsonRef.json_loads TornadoRef.schedule_next
           [(Nodes, Some conf_on, None); (Proxies, Some conf_on, None);
            (Nodes, Some conf_off, None)] initial_world eq_refl).
Defined.

Lemma local_route_is_stub_iff_role_missing_witness :
  ("/stats/local/proxies", Respond404Handler,
   reason_kwargs "Only LB node provides proxies stats")
    ∈ get_local_stats_api_routes false true /\
  (Respond404Handler = Respond404Handler <->
     ("/stats/local/proxies" = "/stats/local/proxies" /\ false = false) \/
     (("/stats/local/proxies" = "/stats/local/rabbitmq" \/
       "/stats/local/proxies" = "/stats/local/push_queues") /\ true = false)).
Proof.
  assert (("/stats/local/proxies", Respond404Handler,
           reason_kwargs "Only LB node provides proxies stats")
            ∈ get_local_stats_api_routes false true) as Hin.
  { unfold get_local_stats_api_routes. cbv zeta beta iota. apply route_list_elem.
    eexists. split; [reflexivity | done]. }
  split; [exact Hin|].
  exact (proj1 (local_route_is_stub_iff_role_missing false true _ _ _ Hin)).
Defined.

Lemma cluster_routes_follow_master_witness :
  ("/stats/cluster/nodes", Respond404Handler,
   reason_kwargs "Only master node provides cluster stats")
    ∈ get_cluster_stats_api_routes false /\
  Respond404Handler = Respond404Handler /\
  reason_kwargs "Only master node provides cluster stats"
  = reason_kwargs "Only master node provides cluster stats".
Proof.
  assert (("/stats/cluster/nodes", Respond404Handler,
           reason_kwargs "Only master node provides cluster stats")
            ∈ get_cluster_stats_api_routes false) as Hin.
  { unfold get_cluster_stats_api_routes. cbv zeta beta iota. apply route_list_elem.
    eexists. split; [reflexivity | done]. }
  split; [exact Hin|].
  exact (cluster_routes_follow_master false _ _ _ Hin).
Defined.
